(** * Telofinder: the telomere scanner of [Telofinder.py]

    A shallow embedding of the scanning core of the script (lines 44-200):
    the two strand passes, each an outer [while pos < L] loop that resets the
    per-hit counters and runs an inner [while pos < L] loop over the SAME
    variable [pos], followed by the acceptance test of line 124 / 187 and the
    construction of the context string.

    Python integers are [Z]; the text is a list of characters; an
    out-of-range subscript is the error [IndexError], which aborts the
    script.  The two [while] loops are written with fuel, and fuel
    exhaustion is a third, separate outcome that is proved unreachable. *)

From Stdlib Require Import ZArith List Ascii String Bool Lia Sorted.
From Stdlib Require Import DecimalString.
Import ListNotations.
Open Scope Z_scope.

(** ** Outcomes: a value, Python's [IndexError], or an exhausted fuel budget *)

Inductive result (A : Type) : Type :=
| Ok (a : A)
| IndexError
| OutOfFuel.
Arguments Ok {A} a.
Arguments IndexError {A}.
Arguments OutOfFuel {A}.

Definition bind {A B : Type} (m : result A) (k : A -> result B) : result B :=
  match m with
  | Ok a => k a
  | IndexError => IndexError
  | OutOfFuel => OutOfFuel
  end.

Notation "x <- m ;; k" := (bind m (fun x => k))
  (at level 61, m at next level, right associativity).

(** ** Python strings *)

Definition text_t : Type := list ascii.

Notation "'txt' s" := (list_ascii_of_string s) (at level 9, s at level 0).

Definition len (text : text_t) : Z := Z.of_nat (List.length text).

(** [text[i]]: indices [-L .. -1] count from the end, anything outside
    [-L .. L-1] raises. *)
Definition py_index (text : text_t) (i : Z) : result ascii :=
  let j := if i <? 0 then i + len text else i in
  if (j <? 0) || (len text <=? j) then IndexError
  else match nth_error text (Z.to_nat j) with
       | Some c => Ok c
       | None => IndexError
       end.

(** The bound adjustment Python applies to each end of a slice. *)
Definition clamp (L i : Z) : Z :=
  let j := if i <? 0 then i + L else i in
  if j <? 0 then 0 else if L <? j then L else j.

(** [text[i:j]] *)
Definition py_slice (text : text_t) (i j : Z) : text_t :=
  let a := clamp (len text) i in
  let b := clamp (len text) j in
  firstn (Z.to_nat (b - a)) (skipn (Z.to_nat a) text).

(** [text.count(c, i, j)] for a one-character [c]. *)
Definition py_count (text : text_t) (c : ascii) (i j : Z) : Z :=
  Z.of_nat (count_occ ascii_dec (py_slice text i j) c).

(** [s.replace(c, by)] for a one-character [c]. *)
Definition py_replace (s : text_t) (c : ascii) (by_ : text_t) : text_t :=
  flat_map (fun x => if Ascii.eqb x c then by_ else [x]) s.

Definition NL : ascii := "010"%char.
Definition TAB : ascii := "009"%char.

(** ** The two strand passes

    Lines 78-137 (strand A) and 141-200 (strand B) are the same text up to
    the four character literals; the record names the role each literal
    plays. *)

Record strand : Type := {
  primary : ascii;     (* "G" line 90,  "C" line 153 *)
  secondary : ascii;   (* "T" lines 92, 98;  "A" lines 155, 161 *)
  noise1 : ascii;      (* "A" lines 102-103, "T" lines 165-166 *)
  noise2 : ascii       (* "C" lines 102-103, "G" lines 165-166 *)
}.

Definition strandA : strand :=
  {| primary := "G"; secondary := "T"; noise1 := "A"; noise2 := "C" |}%char.
Definition strandB : strand :=
  {| primary := "C"; secondary := "A"; noise1 := "T"; noise2 := "G" |}%char.

(** The variables the inner loop reads and writes. *)
Record counters : Type := {
  pos : Z;
  length : Z;
  trash : Z;
  ac : Z;
  gt : Z;
  tt : Z;
  gg : Z
}.

(** Lines 80-86: the reset at the head of the outer loop body. *)
Definition reset (p : Z) : counters :=
  {| pos := p; length := 0; trash := 0; ac := 0; gt := 0; tt := 0; gg := 0 |}.

Definition set_pos (s : counters) (v : Z) : counters :=
  {| pos := v; length := length s; trash := trash s; ac := ac s;
     gt := gt s; tt := tt s; gg := gg s |}.
Definition set_trash (s : counters) (v : Z) : counters :=
  {| pos := pos s; length := length s; trash := v; ac := ac s;
     gt := gt s; tt := tt s; gg := gg s |}.
Definition set_ac (s : counters) (v : Z) : counters :=
  {| pos := pos s; length := length s; trash := trash s; ac := v;
     gt := gt s; tt := tt s; gg := gg s |}.

(** How one pass through (part of) the loop body ends: at a [break], or by
    falling through to the next statement. *)
Inductive flow : Type := Break | Next.

(** Lines 88-111: the [if / elif / elif / else] on the current character. *)
Definition classify (sd : strand) (text : text_t) (s : counters)
  : result (flow * counters) :=
  ch <- py_index text (pos s) ;;
  if Ascii.eqb ch (primary sd) then
    prev <- py_index text (pos s - 1) ;;
    Ok (Next,
        {| pos := pos s; length := length s + 1; trash := trash s; ac := ac s;
           gt := if Ascii.eqb prev (secondary sd) then gt s + 1 else 0;
           tt := 0; gg := gg s + 1 |})
  else if Ascii.eqb ch (secondary sd) then
    Ok (Next,
        {| pos := pos s; length := length s + 1; trash := trash s; ac := ac s;
           gt := gt s; tt := tt s + 1; gg := 0 |})
  else if Ascii.eqb ch (noise1 sd) || Ascii.eqb ch (noise2 sd) then
    let n := py_count text (noise1 sd) (pos s) (pos s + 15)
             + py_count text (noise2 sd) (pos s) (pos s + 15) in
    if n >? 2 then Ok (Break, set_ac s n)
    else
      Ok (Next,
          {| pos := pos s; length := length s + 1; trash := trash s; ac := 0;
             gt := gt s; tt := tt s; gg := gg s |})
  else Ok (Break, set_trash s 1).

(** Lines 113-121: the three stop tests and [pos += 1]. *)
Definition stop_checks (s : counters) : flow * counters :=
  if tt s >? 3 then (Break, s)
  else if gg s >? 5 then (Break, s)
  else if gt s >? 10 then (Break, set_trash s 1)
  else (Next, set_pos s (pos s + 1)).

(** Lines 88-121: one iteration of the inner loop. *)
Definition loop_body (sd : strand) (text : text_t) (s : counters)
  : result (flow * counters) :=
  r <- classify sd text s ;;
  match fst r with
  | Break => Ok r
  | Next => Ok (stop_checks (snd r))
  end.

(** Lines 87-121: [while pos < L: ...]. *)
Fixpoint inner_loop (fuel : nat) (sd : strand) (text : text_t) (s : counters)
  : result counters :=
  if pos s <? len text then
    match fuel with
    | O => OutOfFuel
    | S fuel' =>
        r <- loop_body sd text s ;;
        match fst r with
        | Break => Ok (snd r)
        | Next => inner_loop fuel' sd text (snd r)
        end
    end
  else Ok s.

(** One attempt: the reset followed by the inner loop.  Every iteration
    that does not break adds one to [pos], so [L] iterations are enough. *)
Definition attempt (sd : strand) (text : text_t) (p : Z) : result counters :=
  inner_loop (List.length text) sd text (reset p).

(** A row of [results]: [[index, length, position, context]]. *)
Record hit : Type := {
  hit_index : Z;
  hit_length : Z;
  hit_position : Z;
  hit_context : text_t
}.

(** The globals the outer loops update besides [pos]. *)
Record collector : Type := {
  index : Z;
  results : list hit
}.

(** Line 124 / 187, with the left-to-right short circuit of [and]. *)
Definition valid_telomere (text : text_t) (min_length position : Z)
  (s : counters) : result bool :=
  if negb (length s >? min_length) then Ok false
  else if negb (length s <? 1000) then Ok false
  else if negb (trash s =? 0) then Ok false
  else
    before <- py_index text (position - 1) ;;
    if Ascii.eqb before NL then Ok false
    else
      after <- py_index text (position + length s + 1) ;;
      Ok (negb (Ascii.eqb after NL)).

(** Lines 128-134 / 191-197. *)
Definition make_context (text : text_t) (position length : Z) : text_t :=
  let start_context := Z.max 0 (position - 50) in
  let end_context := Z.min (len text) (position + (length + 50)) in
  let raw_context := py_slice text start_context end_context in
  let clean_context := py_replace raw_context NL (txt "END OF READ") in
  py_replace clean_context TAB (txt " ").

(** Lines 125-136 / 188-199. *)
Definition record_hit (text : text_t) (position : Z) (s : counters)
  (c : collector) : collector :=
  let index' := index c + 1 in
  {| index := index';
     results := results c ++
       [ {| hit_index := index'; hit_length := length s;
            hit_position := position;
            hit_context := make_context text position (length s) |} ] |}.

(** Lines 78-137 / 141-200: the outer loop.  [p] is the value of [pos] at
    the loop test; the inner loop leaves its own final [pos] behind and
    line 137 / 200 adds one to that. *)
Fixpoint scan_loop (fuel : nat) (sd : strand) (text : text_t)
  (min_length : Z) (p : Z) (c : collector) : result collector :=
  if p <? len text then
    match fuel with
    | O => OutOfFuel
    | S fuel' =>
        let position := p in
        s <- attempt sd text p ;;
        ok <- valid_telomere text min_length position s ;;
        let c' := if ok : bool then record_hit text position s c else c in
        scan_loop fuel' sd text min_length (pos s + 1) c'
    end
  else Ok c.

(** Line 75 / 139 ([pos = 0]) and the loop after it. *)
Definition strand_pass (sd : strand) (text : text_t) (min_length : Z)
  (c : collector) : result collector :=
  scan_loop (List.length text) sd text min_length 0 c.

(** Lines 44, 70-200: both passes, on strand A and then on strand B. *)
Definition telofinder (text : text_t) (min_length : Z) : result (list hit) :=
  c1 <- strand_pass strandA text min_length {| index := 0; results := [] |} ;;
  c2 <- strand_pass strandB text min_length c1 ;;
  Ok (results c2).

Definition start : collector := {| index := 0; results := [] |}.

(** The schedule of a pass: the offsets at which the outer loop starts its
    attempts for as long as no acceptance test raises.  The acceptance
    test is left out of it, so the schedule does not depend on
    [min_length] and does not stop at a fault; the attempts a pass really
    makes are [pass_attempts] below, the part of the schedule up to the
    first fault. *)
Fixpoint starts_loop (fuel : nat) (sd : strand) (text : text_t) (p : Z)
  : list Z :=
  if p <? len text then
    match fuel with
    | O => []
    | S fuel' =>
        match attempt sd text p with
        | Ok s => p :: starts_loop fuel' sd text (pos s + 1)
        | _ => [p]
        end
    end
  else [].


(** The values [position] (line 86 / 149) takes in the iterations the
    outer loop runs: the loop of [scan_loop] with only the bookkeeping of
    hits left out.  When the acceptance test of an attempt raises, the
    pass ends there and that attempt is the last of the list. *)
Fixpoint attempts_loop (fuel : nat) (sd : strand) (text : text_t)
  (min_length p : Z) : list Z :=
  if p <? len text then
    match fuel with
    | O => []
    | S fuel' =>
        match attempt sd text p with
        | Ok s =>
            match valid_telomere text min_length p s with
            | Ok _ => p :: attempts_loop fuel' sd text min_length (pos s + 1)
            | _ => [p]
            end
        | _ => [p]
        end
    end
  else [].

(** The attempts the pass [sd] makes from the moment its loop is entered
    with [pos = 0] (line 75 / 139).  The script enters the strand-B loop
    only after the strand-A pass has completed. *)
Definition pass_attempts (sd : strand) (text : text_t) (min_length : Z)
  : list Z :=
  attempts_loop (List.length text) sd text min_length 0.

(** ** Vocabulary of the statements *)

(** The four literals of a pass are pairwise different characters. *)
Definition distinct (sd : strand) : Prop :=
  primary sd <> secondary sd /\ primary sd <> noise1 sd /\
  primary sd <> noise2 sd /\ secondary sd <> noise1 sd /\
  secondary sd <> noise2 sd /\ noise1 sd <> noise2 sd.

Definition is_noise (sd : strand) (ch : ascii) : bool :=
  Ascii.eqb ch (noise1 sd) || Ascii.eqb ch (noise2 sd).

Definition recognized (sd : strand) (ch : ascii) : Prop :=
  ch = primary sd \/ ch = secondary sd \/ ch = noise1 sd \/ ch = noise2 sd.

(** The states in which the inner loop of the attempt started at [p] can
    stand at its loop test. *)
Inductive loop_head (sd : strand) (text : text_t) (p : Z) : counters -> Prop :=
| head_reset : loop_head sd text p (reset p)
| head_next (s s' : counters) :
    loop_head sd text p s ->
    pos s < len text ->
    loop_body sd text s = Ok (Next, s') ->
    loop_head sd text p s'.

(** What holds at every loop test of the attempt started at [p]. *)
Definition head_inv (sd : strand) (text : text_t) (p : Z) (s : counters)
  : Prop :=
  0 <= p <= pos s /\ length s = pos s - p /\ trash s = 0 /\ ac s = 0 /\
  0 <= tt s <= 3 /\ 0 <= gg s <= 5 /\ 0 <= gt s <= 10 /\
  (py_index text (pos s - 1) = Ok (secondary sd) -> gg s = 0).

(** What holds of the counters an attempt started at [p] leaves behind. *)
Definition attempt_post (sd : strand) (text : text_t) (p : Z) (r : counters)
  : Prop :=
  p <= pos r /\
  (pos r < len text \/ pos r = p \/ pos r = len text) /\
  (length r = pos r - p \/ (length r = pos r - p + 1 /\ pos r < len text)) /\
  (trash r = 0 \/ trash r = 1) /\
  (forall ch, py_index text (pos r) = Ok ch -> ~ recognized sd ch ->
              trash r = 1).

(** The number of noise characters among the (at most 15) characters at
    offsets [p], [p+1], ..., [p+14] that exist in the text. *)
Definition window_noise (sd : strand) (text : text_t) (p : Z) : Z :=
  Z.of_nat (List.length
    (filter (is_noise sd) (firstn 15 (skipn (Z.to_nat p) text)))).

(** The characters at offsets [a <= i < b] of the text. *)
Definition window (text : text_t) (a b : Z) : text_t :=
  firstn (Z.to_nat b - Z.to_nat a) (skipn (Z.to_nat a) text).

(** What a character of the window becomes in the context string. *)
Definition shown (ch : ascii) : text_t :=
  if Ascii.eqb ch NL then txt "END OF READ"
  else if Ascii.eqb ch TAB then txt " "
  else [ch].

(** [h] is the row the pass [sd] appends for an attempt it accepts. *)
Definition emitted (sd : strand) (text : text_t) (min_length : Z) (h : hit)
  : Prop :=
  0 <= hit_position h < len text /\
  exists s,
    attempt sd text (hit_position h) = Ok s /\
    valid_telomere text min_length (hit_position h) s = Ok true /\
    hit_length h = length s /\
    hit_context h = make_context text (hit_position h) (length s).

(** Consecutive rows of one pass: the later one starts after the earlier
    one's start and not before its end. *)
Definition precedes (h1 h2 : hit) : Prop :=
  hit_position h1 < hit_position h2 /\
  hit_position h1 + hit_length h1 <= hit_position h2.

(** The collector with the rows [pre] in front of its own. *)
Definition prepend (pre : list hit) (c : collector) : collector :=
  {| index := index c; results := pre ++ results c |}.

(** The indices [i+1, i+2, ..., i+n]. *)
Definition indices_from (i : Z) (n : nat) : list Z :=
  map (fun k => i + Z.of_nat k) (seq 1 n).

(** The offsets [0 .. L-1]. *)
Definition all_offsets (text : text_t) : list Z :=
  map Z.of_nat (seq 0 (List.length text)).

(** ** Sample texts *)

Definition G200 : text_t := repeat "G"%char 200.
Definition GGT18 : text_t := List.concat (repeat (txt "GGT") 18).
Definition G14X : text_t := txt "GGGGGGGGGGGGGGX".
Definition two_strands : text_t := txt "XGGGGGGGGGGGGGGXCCCCCCCCCCCCCCX".
Definition tab_run : text_t := TAB :: txt "GGGGGGGG".
Definition TG11 : text_t := txt "TGTGTGTGTGTGTGTGTGTGTGX".
Definition noisy : text_t := txt "GAGGCGGTAGGGT".

(** The rows the script produces on [two_strands] with [min_length = 0]. *)
Definition two_strands_hits : list hit :=
  [ {| hit_index := 1; hit_length := 6; hit_position := 1;
       hit_context := two_strands |};
    {| hit_index := 2; hit_length := 6; hit_position := 7;
       hit_context := two_strands |};
    {| hit_index := 3; hit_length := 6; hit_position := 16;
       hit_context := two_strands |};
    {| hit_index := 4; hit_length := 6; hit_position := 22;
       hit_context := two_strands |} ].

(** The row the script produces on [tab_run] followed by a newline, with
    [min_length = 0]. *)
Definition tab_hit : hit :=
  {| hit_index := 1; hit_length := 6; hit_position := 1;
     hit_context := txt " GGGGGGGGEND OF READ" |}.

(** The counters after [n] full iterations of the inner loop from [s], if
    the loop gets that far. *)
Fixpoint iterate (n : nat) (sd : strand) (text : text_t) (s : counters)
  : option counters :=
  match n with
  | O => Some s
  | S n' =>
      if pos s <? len text then
        match loop_body sd text s with
        | Ok (Next, s') => iterate n' sd text s'
        | _ => None
        end
      else None
  end.

(** ** The output (lines 202-218)

    The text of the input file is a parameter: [read_all_upper] hands it
    over upper-cased, and the scan above works on it. *)

(** [str(n)] for an integer [n]. *)
Definition py_str (n : Z) : text_t :=
  list_ascii_of_string (NilZero.string_of_int (Z.to_int n)).

(** [s.endswith(suffix)] *)
Definition endswith (s suffix : text_t) : bool :=
  (List.length suffix <=? List.length s)%nat &&
  if list_eq_dec ascii_dec
       (skipn (List.length s - List.length suffix) s) suffix
  then true else false.

(** [sep.join(l)] *)
Fixpoint py_join (sep : text_t) (l : list text_t) : text_t :=
  match l with
  | [] => []
  | [x] => x
  | x :: rest => x ++ sep ++ py_join sep rest
  end.

(** Lines 205-208. *)
Definition output_path (sequence_file : text_t) : text_t :=
  let base := sequence_file in
  let base := if endswith base (txt ".gz") then py_slice base 0 (-3)
              else base in
  base ++ txt "-results.tsv".

(** [map(str, row)] of line 216. *)
Definition row_fields (h : hit) : list text_t :=
  [py_str (hit_index h); py_str (hit_length h); py_str (hit_position h);
   hit_context h].

(** Line 216: what one row adds to the file. *)
Definition row_line (h : hit) : text_t :=
  py_join [TAB] (row_fields h) ++ [NL].

(** Line 214. *)
Definition header : text_t :=
  txt "Index" ++ [TAB] ++ txt "Telomere length" ++ [TAB] ++
  txt "Position" ++ [TAB] ++ txt "Context" ++ [NL].

(** Lines 213-216: everything written to the file. *)
Definition tsv (results : list hit) : text_t :=
  header ++ flat_map row_line results.

(** Line 218. *)
Definition message (index : Z) (outfile : text_t) : text_t :=
  txt "Analysis complete. " ++ py_str index ++
  txt " telomers found. Results written to: " ++ outfile.

(** What a run leaves behind: the name and the content of the file it
    writes, and the line it prints. *)
Record output : Type := {
  outfile : text_t;
  written : text_t;
  printed : text_t
}.

(** Lines 44, 70-218, for the upper-cased content [text] of the file
    [sequence_file].  A fault in the scan ends the script before the file
    is opened. *)
Definition main (sequence_file text : text_t) (min_length : Z)
  : result output :=
  c1 <- strand_pass strandA text min_length {| index := 0; results := [] |} ;;
  c2 <- strand_pass strandB text min_length c1 ;;
  let out := output_path sequence_file in
  Ok {| outfile := out; written := tsv (results c2);
        printed := message (index c2) out |}.

(** ** Vocabulary of the further statements *)

(** [s.split(sep)] for a one-character [sep]: how a reader of the file
    cuts it into lines and a line into fields. *)
Fixpoint split_on (sep : ascii) (s : text_t) : list text_t :=
  match s with
  | [] => [[]]
  | c :: rest =>
      if Ascii.eqb c sep then [] :: split_on sep rest
      else match split_on sep rest with
           | x :: xs => (c :: x) :: xs
           | [] => [[c]]
           end
  end.

Definition nucleotide (ch : ascii) : Prop :=
  ch = "A"%char \/ ch = "C"%char \/ ch = "G"%char \/ ch = "T"%char.

(** The base that pairs with a base; other characters stay. *)
Definition complement (ch : ascii) : ascii :=
  if Ascii.eqb ch "G" then "C"%char
  else if Ascii.eqb ch "C" then "G"%char
  else if Ascii.eqb ch "A" then "T"%char
  else if Ascii.eqb ch "T" then "A"%char
  else ch.

(** The pass that looks for the complements of the characters of [sd]. *)
Definition complement_strand (sd : strand) : strand :=
  {| primary := complement (primary sd);
     secondary := complement (secondary sd);
     noise1 := complement (noise1 sd);
     noise2 := complement (noise2 sd) |}.

(** Length and position of a row. *)
Definition place (h : hit) : Z * Z := (hit_length h, hit_position h).

(** Length, position and context of a row: all but its number. *)
Definition content (h : hit) : Z * Z * text_t :=
  (hit_length h, hit_position h, hit_context h).

(** The attempt of pass [sd] at offset [p] passes the first four tests of
    line 124 / 187 and its fifth subscript is past the end of the text. *)
Definition faulty (sd : strand) (text : text_t) (min_length p : Z) : Prop :=
  exists s before,
    attempt sd text p = Ok s /\
    min_length < length s < 1000 /\ trash s = 0 /\
    py_index text (p - 1) = Ok before /\ before <> NL /\
    len text <= p + length s + 1.

(** What the script leaves behind for the input file "reads.fastq.gz"
    holding [two_strands], with [min_length = 0]. *)
Definition two_strands_output : output :=
  {| outfile := txt "reads.fastq-results.tsv";
     written := tsv two_strands_hits;
     printed := txt "Analysis complete. 4 telomers found. Results written to: reads.fastq-results.tsv" |}.

Definition CR : ascii := "013"%char.

Definition G6X : text_t := txt "GGGGGGX".
Definition G14 : text_t := txt "GGGGGGGGGGGGGG".

(** The row the script produces on [G14] followed by a newline, with
    [min_length = 0]. *)
Definition G14_hit : hit :=
  {| hit_index := 1; hit_length := 6; hit_position := 6;
     hit_context := txt "GGGGGGGGGGGGGGEND OF READ" |}.

(** ** Subscripts and slices *)

Lemma len_nonneg (text : text_t) : 0 <= len text.
Proof. unfold len. lia. Qed.

Lemma py_index_in_range (text : text_t) (i : Z) :
  - len text <= i < len text -> exists c, py_index text i = Ok c.
Proof.
  intros Hi. unfold py_index.
  set (j := if i <? 0 then i + len text else i).
  assert (Hj : 0 <= j < len text).
  { subst j. destruct (Z.ltb_spec i 0); lia. }
  destruct (Z.ltb_spec j 0); [lia|].
  destruct (Z.leb_spec (len text) j); [lia|]. simpl.
  destruct (nth_error text (Z.to_nat j)) eqn:E; [eauto|].
  apply nth_error_None in E. unfold len in Hj. lia.
Qed.

Lemma py_index_nonneg (text : text_t) (i : Z) (c : ascii) :
  0 <= i -> py_index text i = Ok c ->
  i < len text /\ nth_error text (Z.to_nat i) = Some c.
Proof.
  intros Hi. unfold py_index.
  destruct (Z.ltb_spec i 0); [lia|].
  destruct (Z.ltb_spec i 0); [lia|].
  destruct (Z.leb_spec (len text) i); simpl; [discriminate|].
  destruct (nth_error text (Z.to_nat i)); [|discriminate].
  intros [= ->]. split; [lia|reflexivity].
Qed.

Lemma py_index_past_end (text : text_t) (i : Z) :
  len text <= i -> py_index text i = IndexError.
Proof.
  intros Hi. unfold py_index. pose proof (len_nonneg text).
  destruct (Z.ltb_spec i 0); [lia|].
  destruct (Z.ltb_spec i 0); [lia|].
  destruct (Z.leb_spec (len text) i); [reflexivity|lia].
Qed.

(** [text[-1]] is the last character. *)
Lemma py_index_minus_one (text : text_t) (c : ascii) :
  py_index (text ++ [c]) (0 - 1) = Ok c.
Proof.
  unfold py_index, len. rewrite length_app. simpl List.length.
  replace (0 - 1 <? 0) with true by reflexivity.
  replace (0 - 1 + Z.of_nat (List.length text + 1))
    with (Z.of_nat (List.length text)) by lia.
  destruct (Z.ltb_spec (Z.of_nat (List.length text)) 0); [lia|].
  destruct (Z.leb_spec (Z.of_nat (List.length text + 1))
              (Z.of_nat (List.length text))); [lia|]. simpl.
  rewrite Nat2Z.id, nth_error_app2 by lia.
  rewrite Nat.sub_diag. reflexivity.
Qed.

(** ** One iteration of the inner loop *)

Lemma strandA_distinct : distinct strandA.
Proof. repeat split; discriminate. Qed.

Lemma strandB_distinct : distinct strandB.
Proof. repeat split; discriminate. Qed.

Lemma strands_distinct (sd : strand) :
  sd = strandA \/ sd = strandB -> distinct sd.
Proof.
  intros [-> | ->]; [apply strandA_distinct | apply strandB_distinct].
Qed.

Lemma reset_head_inv (sd : strand) (text : text_t) (p : Z) :
  0 <= p -> head_inv sd text p (reset p).
Proof. intros Hp. unfold head_inv, reset; simpl. repeat split; lia. Qed.

Section Attempt.

Variables (sd : strand) (text : text_t).
Hypothesis sd_distinct : distinct sd.

(** The outcome of one iteration from a state that satisfies the loop
    invariant: never an error, and either the next loop test with the
    invariant restored, or a [break] with the attempt's postcondition. *)
Lemma loop_body_inv (p : Z) (s : counters) :
  head_inv sd text p s -> pos s < len text ->
  exists f s', loop_body sd text s = Ok (f, s') /\
    match f with
    | Next => head_inv sd text p s' /\ pos s' = pos s + 1
    | Break => pos s' = pos s /\ attempt_post sd text p s'
    end.
Proof.
  intros (Hp & Hlen & Htr & Hac & Htt & Hgg & Hgt & Hprev) HL.
  destruct sd_distinct as (D1 & D2 & D3 & D4 & D5 & D6).
  destruct (py_index_in_range text (pos s)) as [ch Hch]; [lia|].
  destruct (py_index_in_range text (pos s - 1)) as [prev Hprv]; [lia|].
  unfold loop_body, classify. rewrite Hch. simpl.
  destruct (Ascii.eqb_spec ch (primary sd)) as [Ep|Ep].
  - (* primary *)
    rewrite Hprv. simpl. unfold stop_checks; simpl.
    destruct (Z.gtb_spec (gg s + 1) 5).
    + eexists Break, _. split; [reflexivity|]. simpl.
      unfold attempt_post; simpl. repeat split; try lia.
      intros c Hc Hn. exfalso. apply Hn. left. congruence.
    + destruct (Ascii.eqb_spec prev (secondary sd)) as [Es|Es].
      * destruct (Z.gtb_spec (gt s + 1) 10).
        -- eexists Break, _. split; [reflexivity|]. simpl.
           unfold attempt_post; simpl. repeat split; try lia.
        -- eexists Next, _. split; [reflexivity|]. simpl.
           unfold head_inv; simpl. repeat split; try lia.
           replace (pos s + 1 - 1) with (pos s) by lia. congruence.
      * eexists Next, _. split; [reflexivity|]. simpl.
        unfold head_inv; simpl. repeat split; try lia.
        replace (pos s + 1 - 1) with (pos s) by lia. congruence.
  - destruct (Ascii.eqb_spec ch (secondary sd)) as [Es|Es].
    + (* secondary *)
      simpl. unfold stop_checks; simpl.
      destruct (Z.gtb_spec (tt s + 1) 3).
      * eexists Break, _. split; [reflexivity|]. simpl.
        unfold attempt_post; simpl. repeat split; try lia.
        intros c Hc Hn. exfalso. apply Hn. right; left. congruence.
      * destruct (Z.gtb_spec (gt s) 10); [lia|].
        eexists Next, _. split; [reflexivity|]. simpl.
        unfold head_inv; simpl. repeat split; lia.
    + destruct (Ascii.eqb ch (noise1 sd) || Ascii.eqb ch (noise2 sd)) eqn:En.
      * (* noise *)
        match goal with |- context [?n >? 2] => destruct (Z.gtb_spec n 2) end.
        -- eexists Break, _. split; [reflexivity|]. simpl.
           unfold attempt_post; simpl. repeat split; try lia.
           intros c Hc Hn. exfalso. apply Hn. right; right.
           rewrite Hch in Hc. injection Hc as <-.
           apply orb_true_iff in En.
           destruct En as [E|E]; apply Ascii.eqb_eq in E; auto.
        -- simpl. unfold stop_checks; simpl.
           destruct (Z.gtb_spec (tt s) 3); [lia|].
           destruct (Z.gtb_spec (gg s) 5); [lia|].
           destruct (Z.gtb_spec (gt s) 10); [lia|].
           eexists Next, _. split; [reflexivity|]. simpl.
           unfold head_inv; simpl. repeat split; try lia.
           replace (pos s + 1 - 1) with (pos s) by lia.
           rewrite Hch. intros [= E]. apply orb_true_iff in En.
           destruct En as [E'|E']; apply Ascii.eqb_eq in E'; congruence.
      * (* anything else *)
        eexists Break, _. split; [reflexivity|]. simpl.
        unfold attempt_post; simpl. repeat split; try lia.
Qed.

(** ** The inner loop *)

Lemma inner_loop_eq (fuel : nat) (s : counters) :
  inner_loop fuel sd text s =
  if pos s <? len text then
    match fuel with
    | O => OutOfFuel
    | S fuel' =>
        r <- loop_body sd text s ;;
        match fst r with
        | Break => Ok (snd r)
        | Next => inner_loop fuel' sd text (snd r)
        end
    end
  else Ok s.
Proof. destruct fuel; reflexivity. Qed.

(** With one unit of fuel per remaining character the loop ends, without
    an error, in counters that satisfy the postcondition. *)
Lemma inner_loop_post (p : Z) (fuel : nat) :
  forall s,
    head_inv sd text p s -> pos s <= len text \/ pos s = p ->
    (Z.to_nat (len text - pos s) <= fuel)%nat ->
    exists r, inner_loop fuel sd text s = Ok r /\ attempt_post sd text p r.
Proof.
  induction fuel as [|fuel IH]; intros s Hinv Hle Hfuel;
    rewrite inner_loop_eq; destruct (Z.ltb_spec (pos s) (len text)) as [HL|HL];
    try lia.
  - exists s. split; [reflexivity|]. apply (conj Hle) in Hinv.
    destruct Hinv as (Hle' & Hp & Hlen & Htr & _).
    unfold attempt_post. repeat split; try lia.
    intros ch Hch. rewrite py_index_past_end in Hch by lia. discriminate.
  - destruct (loop_body_inv p s Hinv HL) as (f & s' & -> & Hf). simpl.
    destruct f.
    + exists s'. split; [reflexivity|]. apply Hf.
    + destruct Hf as [Hinv' Hpos]. apply IH; [assumption|lia|lia].
  - exists s. split; [reflexivity|].
    destruct Hinv as (Hp & Hlen & Htr & _).
    unfold attempt_post. repeat split; try lia.
    intros ch Hch. rewrite py_index_past_end in Hch by lia. discriminate.
Qed.

(** An attempt started inside the text never faults and never runs out of
    fuel. *)
Lemma attempt_ok (p : Z) :
  0 <= p -> exists r, attempt sd text p = Ok r /\ attempt_post sd text p r.
Proof.
  intros Hp. unfold attempt. apply inner_loop_post.
  - apply reset_head_inv, Hp.
  - right. reflexivity.
  - simpl. unfold len. lia.
Qed.

Lemma loop_body_next_pos (s s' : counters) :
  loop_body sd text s = Ok (Next, s') -> pos s' = pos s + 1.
Proof.
  unfold loop_body, classify.
  destruct (py_index text (pos s)) as [ch| |]; simpl; try discriminate.
  assert (Hstop : forall s1, Ok (stop_checks s1) = Ok (Next, s') ->
                             pos s' = pos s1 + 1).
  { intros s1. unfold stop_checks.
    destruct (tt s1 >? 3); [discriminate|].
    destruct (gg s1 >? 5); [discriminate|].
    destruct (gt s1 >? 10); [discriminate|].
    intros [= <-]. reflexivity. }
  destruct (Ascii.eqb ch (primary sd)).
  { destruct (py_index text (pos s - 1)); simpl; try discriminate.
    intros H. apply Hstop in H. exact H. }
  destruct (Ascii.eqb ch (secondary sd)).
  { simpl. intros H. apply Hstop in H. exact H. }
  destruct (Ascii.eqb ch (noise1 sd) || Ascii.eqb ch (noise2 sd)).
  - match goal with |- context [?n >? 2] => destruct (n >? 2) end; simpl.
    + discriminate.
    + intros H. apply Hstop in H. exact H.
  - simpl. discriminate.
Qed.

(** Fuel beyond the number of remaining characters changes nothing. *)
Lemma inner_loop_fuel (f1 : nat) :
  forall f2 s,
    (Z.to_nat (len text - pos s) <= f1)%nat ->
    (Z.to_nat (len text - pos s) <= f2)%nat ->
    inner_loop f1 sd text s = inner_loop f2 sd text s.
Proof.
  induction f1 as [|f1 IH]; intros f2 s H1 H2;
    rewrite (inner_loop_eq f2), inner_loop_eq;
    destruct (Z.ltb_spec (pos s) (len text)) as [HL|HL];
    try reflexivity; try lia.
  destruct f2 as [|f2]; [lia|].
  destruct (loop_body sd text s) as [[f s']| |] eqn:E; simpl; try reflexivity.
  destruct f; [reflexivity|].
  apply loop_body_next_pos in E. apply IH; lia.
Qed.

(** From any state the loop passes through, the loop runs on to the
    result of the whole attempt. *)
Lemma loop_head_run (p : Z) (s : counters) :
  0 <= p -> loop_head sd text p s ->
  forall fuel, (Z.to_nat (len text - pos s) <= fuel)%nat ->
               inner_loop fuel sd text s = attempt sd text p.
Proof.
  intros Hp H. induction H as [|s s' H IH HL Hbody]; intros fuel Hfuel.
  - unfold attempt. apply inner_loop_fuel; [exact Hfuel|].
    simpl. unfold len. lia.
  - pose proof (loop_body_next_pos _ _ Hbody) as Hpos.
    rewrite <- (IH (S fuel)) by lia.
    rewrite (inner_loop_eq (S fuel)).
    destruct (Z.ltb_spec (pos s) (len text)); [|lia].
    rewrite Hbody. reflexivity.
Qed.

Lemma loop_head_head_inv (p : Z) (s : counters) :
  0 <= p -> loop_head sd text p s -> head_inv sd text p s.
Proof.
  intros Hp H. induction H as [|s s' H IH HL Hbody].
  - apply reset_head_inv, Hp.
  - destruct (loop_body_inv p s IH HL) as (f & s1 & E & Hf).
    rewrite Hbody in E. injection E as <- <-. apply Hf.
Qed.

End Attempt.

(** ** The outer loop *)

Lemma indices_from_cons (i : Z) (n : nat) :
  indices_from i (S n) = (i + 1) :: indices_from (i + 1) n.
Proof.
  unfold indices_from. simpl. f_equal.
  rewrite <- seq_shift, map_map. apply map_ext. intros k. lia.
Qed.

Lemma indices_from_app (i : Z) (n m : nat) :
  indices_from i (n + m) =
  indices_from i n ++ indices_from (i + Z.of_nat n) m.
Proof.
  revert i. induction n as [|n IH]; intros i.
  - simpl. f_equal. lia.
  - change (S n + m)%nat with (S (n + m)).
    rewrite !indices_from_cons, IH. simpl. do 3 f_equal. lia.
Qed.

Section Pass.

Variables (sd : strand) (text : text_t) (min_length : Z).
Hypothesis sd_distinct : distinct sd.

Lemma scan_loop_eq (fuel : nat) (p : Z) (c : collector) :
  scan_loop fuel sd text min_length p c =
  if p <? len text then
    match fuel with
    | O => OutOfFuel
    | S fuel' =>
        s <- attempt sd text p ;;
        ok <- valid_telomere text min_length p s ;;
        let c' := if ok : bool then record_hit text p s c else c in
        scan_loop fuel' sd text min_length (pos s + 1) c'
    end
  else Ok c.
Proof. destruct fuel; reflexivity. Qed.

(** What a run of the outer loop from cursor [p] adds to the collector. *)
Lemma scan_loop_spec (fuel : nat) :
  forall p c c',
    0 <= p -> scan_loop fuel sd text min_length p c = Ok c' ->
    exists new,
      results c' = results c ++ new /\
      index c' = index c + Z.of_nat (List.length new) /\
      map hit_index new = indices_from (index c) (List.length new) /\
      Forall (emitted sd text min_length) new /\
      Forall (fun h => p <= hit_position h) new /\
      StronglySorted precedes new.
Proof.
  induction fuel as [|fuel IH]; intros p c c' Hp; rewrite scan_loop_eq;
    destruct (Z.ltb_spec p (len text)) as [HL|HL]; try discriminate.
  1, 3: intros [= <-]; exists []; rewrite app_nil_r; simpl;
        repeat split; try constructor; lia.
  destruct (attempt_ok sd text sd_distinct p Hp) as (s & Hs & Hpost).
  rewrite Hs. simpl.
  destruct (valid_telomere text min_length p s) as [ok| |] eqn:Hok;
    simpl; try discriminate.
  destruct Hpost as (Hge & _ & Hlen & _).
  intros H. apply IH in H; [|lia].
  destruct H as (new & Hres & Hidx & Hmap & Hem & Hpos & Hsort).
  destruct ok.
  - set (h := {| hit_index := index c + 1; hit_length := length s;
                 hit_position := p;
                 hit_context := make_context text p (length s) |}).
    exists (h :: new). simpl in Hres, Hidx, Hmap.
    repeat split.
    + rewrite Hres, <- app_assoc. reflexivity.
    + rewrite Hidx. simpl List.length. lia.
    + simpl List.length. rewrite indices_from_cons. simpl. f_equal. exact Hmap.
    + constructor; [|exact Hem]. split; [simpl; lia|]. exists s. simpl. auto.
    + constructor; [simpl; lia|].
      eapply Forall_impl; [|exact Hpos]. simpl. intros; lia.
    + constructor; [exact Hsort|].
      eapply Forall_impl; [|exact Hpos]. unfold precedes. simpl. intros; lia.
  - exists new. repeat split; try assumption.
    eapply Forall_impl; [|exact Hpos]. simpl. intros; lia.
Qed.

(** The outer loop never runs out of fuel: each iteration moves the cursor
    forward by at least one. *)
Lemma scan_loop_total (fuel : nat) :
  forall p c,
    0 <= p -> (Z.to_nat (len text - p) <= fuel)%nat ->
    scan_loop fuel sd text min_length p c <> OutOfFuel.
Proof.
  induction fuel as [|fuel IH]; intros p c Hp Hfuel; rewrite scan_loop_eq;
    destruct (Z.ltb_spec p (len text)) as [HL|HL]; try discriminate; try lia.
  destruct (attempt_ok sd text sd_distinct p Hp) as (s & Hs & Hpost).
  rewrite Hs. simpl.
  destruct (valid_telomere text min_length p s) as [ok| |] eqn:Hok;
    simpl; try discriminate.
  - destruct Hpost as (Hge & _). apply IH; lia.
  - unfold valid_telomere in Hok.
    repeat match type of Hok with
    | (if ?b then _ else _) = _ => destruct b; try discriminate
    end.
    destruct (py_index_in_range text (p - 1)) as [c1 Hc1]; [lia|].
    rewrite Hc1 in Hok. simpl in Hok.
    destruct (Ascii.eqb c1 NL); [discriminate|].
    destruct (py_index text (p + length s + 1)) as [c2| |] eqn:Hc2;
      try discriminate.
    unfold py_index in Hc2.
    repeat match type of Hc2 with
    | (if ?b then _ else _) = _ => destruct b; try discriminate
    | match ?b with _ => _ end = _ => destruct b; try discriminate
    end.
Qed.

(** Rows already in the collector are carried along untouched. *)
Lemma scan_loop_prepend (pre : list hit) (fuel : nat) :
  forall p c,
    scan_loop fuel sd text min_length p (prepend pre c) =
    (c' <- scan_loop fuel sd text min_length p c ;; Ok (prepend pre c')).
Proof.
  induction fuel as [|fuel IH]; intros p c; rewrite !scan_loop_eq;
    destruct (p <? len text); try reflexivity.
  destruct (attempt sd text p) as [s| |]; simpl; try reflexivity.
  destruct (valid_telomere text min_length p s) as [ok| |]; simpl;
    try reflexivity.
  destruct ok; [|apply IH].
  rewrite <- IH. f_equal. unfold record_hit, prepend. simpl.
  rewrite app_assoc. reflexivity.
Qed.

End Pass.

(** ** Both passes *)

Lemma strand_pass_spec (sd : strand) (text : text_t) (min_length : Z)
  (c c' : collector) :
  distinct sd -> strand_pass sd text min_length c = Ok c' ->
  exists new,
    c' = {| index := index c + Z.of_nat (List.length new);
            results := results c ++ new |} /\
    strand_pass sd text min_length {| index := index c; results := [] |} =
      Ok {| index := index c + Z.of_nat (List.length new); results := new |} /\
    map hit_index new = indices_from (index c) (List.length new) /\
    Forall (emitted sd text min_length) new /\
    StronglySorted precedes new.
Proof.
  intros Hsd H. unfold strand_pass in *.
  pose proof H as H0.
  apply scan_loop_spec in H0; [|exact Hsd|lia].
  destruct H0 as (new & Hres & Hidx & Hmap & Hem & _ & Hsort).
  exists new. repeat split; try assumption.
  - destruct c'. simpl in *. congruence.
  - assert (Hc : c = prepend (results c) {| index := index c; results := [] |}).
    { destruct c. unfold prepend. simpl. rewrite app_nil_r. reflexivity. }
    rewrite Hc, scan_loop_prepend in H.
    destruct (scan_loop _ sd text min_length 0 _) as [c0| |] eqn:E;
      simpl in H; try discriminate.
    injection H as <-. simpl in Hres, Hidx.
    apply app_inv_head in Hres. destruct c0. simpl in *. congruence.
Qed.

(** The rows of a completed run: those of the strand-A pass, then those of
    the strand-B pass, numbered consecutively from 1. *)
Lemma telofinder_rows (text : text_t) (min_length : Z) (hits : list hit) :
  telofinder text min_length = Ok hits ->
  exists hitsA hitsB,
    hits = hitsA ++ hitsB /\
    strand_pass strandA text min_length start =
      Ok {| index := Z.of_nat (List.length hitsA); results := hitsA |} /\
    strand_pass strandB text min_length
        {| index := Z.of_nat (List.length hitsA); results := [] |} =
      Ok {| index := Z.of_nat (List.length hits); results := hitsB |} /\
    map hit_index hits = indices_from 0 (List.length hits) /\
    Forall (emitted strandA text min_length) hitsA /\
    Forall (emitted strandB text min_length) hitsB /\
    StronglySorted precedes hitsA /\
    StronglySorted precedes hitsB.
Proof.
  unfold telofinder. fold start.
  destruct (strand_pass strandA text min_length start) as [c1| |] eqn:EA;
    simpl; try discriminate.
  destruct (strand_pass strandB text min_length c1) as [c2| |] eqn:EB;
    simpl; try discriminate.
  intros [= <-].
  apply strand_pass_spec in EA; [|apply strandA_distinct].
  destruct EA as (hitsA & -> & _ & HmapA & HemA & HsA). simpl in *.
  apply strand_pass_spec in EB; [|apply strandB_distinct].
  destruct EB as (hitsB & -> & EB & HmapB & HemB & HsB). simpl in *.
  exists hitsA, hitsB. rewrite length_app, Nat2Z.inj_add.
  repeat split; try assumption.
  rewrite map_app, HmapA, HmapB, indices_from_app. reflexivity.
Qed.

(** The script ends: with its rows, or with the [IndexError] of an
    out-of-range subscript, never for lack of fuel. *)
Lemma telofinder_total (text : text_t) (min_length : Z) :
  telofinder text min_length <> OutOfFuel.
Proof.
  unfold telofinder, strand_pass.
  destruct (scan_loop _ strandA text min_length 0 _) as [c1| |] eqn:EA;
    simpl; try discriminate.
  - destruct (scan_loop _ strandB text min_length 0 c1) as [c2| |] eqn:EB;
      simpl; try discriminate.
    exfalso. revert EB. apply scan_loop_total.
    + apply strandB_distinct.
    + lia.
    + unfold len. lia.
  - exfalso. revert EA. apply scan_loop_total.
    + apply strandA_distinct.
    + lia.
    + unfold len. lia.
Qed.

(** ** The acceptance test and the context string *)

Lemma valid_telomere_true (text : text_t) (min_length p : Z) (s : counters) :
  valid_telomere text min_length p s = Ok true ->
  min_length < length s < 1000 /\ trash s = 0 /\
  (exists before, py_index text (p - 1) = Ok before /\ before <> NL) /\
  (exists after, py_index text (p + length s + 1) = Ok after /\ after <> NL).
Proof.
  unfold valid_telomere.
  destruct (Z.gtb_spec (length s) min_length); simpl; [|discriminate].
  destruct (Z.ltb_spec (length s) 1000); simpl; [|discriminate].
  destruct (Z.eqb_spec (trash s) 0); simpl; [|discriminate].
  destruct (py_index text (p - 1)) as [c1| |]; simpl; try discriminate.
  destruct (Ascii.eqb_spec c1 NL); [discriminate|].
  destruct (py_index text (p + length s + 1)) as [c2| |]; simpl;
    try discriminate.
  destruct (Ascii.eqb_spec c2 NL); simpl; [discriminate|].
  intros _. repeat split; eauto; lia.
Qed.

Lemma clamp_id (L i : Z) : 0 <= i <= L -> clamp L i = i.
Proof.
  intros H. unfold clamp.
  destruct (Z.ltb_spec i 0); [lia|].
  destruct (Z.ltb_spec i 0); [lia|].
  destruct (Z.ltb_spec L i); lia.
Qed.

Lemma py_slice_window (text : text_t) (a b : Z) :
  0 <= a <= b -> b <= len text -> py_slice text a b = window text a b.
Proof.
  intros Ha Hb. unfold py_slice, window.
  rewrite !clamp_id by lia. f_equal. lia.
Qed.

Lemma flat_map_flat_map {A B C : Type} (f : A -> list B) (g : B -> list C)
  (l : list A) :
  flat_map g (flat_map f l) = flat_map (fun x => flat_map g (f x)) l.
Proof.
  induction l as [|x l IH]; simpl; [reflexivity|].
  rewrite flat_map_app, IH. reflexivity.
Qed.

Lemma replace_twice_shown (s : text_t) :
  py_replace (py_replace s NL (txt "END OF READ")) TAB (txt " ") =
  flat_map shown s.
Proof.
  unfold py_replace. rewrite flat_map_flat_map. apply flat_map_ext.
  intros x. unfold shown.
  destruct (Ascii.eqb_spec x NL) as [->|Hn]; [reflexivity|].
  simpl. rewrite app_nil_r. reflexivity.
Qed.

Lemma make_context_window (text : text_t) (p l : Z) :
  0 <= p < len text -> 0 <= l ->
  make_context text p l =
  flat_map shown
    (window text (Z.max 0 (p - 50)) (Z.min (len text) (p + l + 50))).
Proof.
  intros Hp Hl. unfold make_context.
  rewrite replace_twice_shown, py_slice_window by lia.
  do 3 f_equal. lia.
Qed.

Lemma shown_clean (ch c : ascii) : In c (shown ch) -> c <> NL /\ c <> TAB.
Proof.
  unfold shown.
  destruct (Ascii.eqb_spec ch NL) as [->|Hn].
  - simpl. intros H.
    repeat (destruct H as [<-|H]; [split; discriminate|]). contradiction.
  - destruct (Ascii.eqb_spec ch TAB) as [->|Ht].
    + simpl. intros [<-|[]]. split; discriminate.
    + simpl. intros [<-|[]]. split; assumption.
Qed.

Lemma flat_map_shown_clean (s : text_t) :
  ~ In NL (flat_map shown s) /\ ~ In TAB (flat_map shown s).
Proof.
  split; intros H; apply in_flat_map in H; destruct H as (ch & _ & H);
    apply shown_clean in H; destruct H; congruence.
Qed.

(** What every row appended by a pass satisfies. *)
Lemma emitted_facts (sd : strand) (text : text_t) (min_length : Z) (h : hit) :
  distinct sd -> emitted sd text min_length h ->
  0 <= hit_position h < len text /\
  min_length < hit_length h < 1000 /\ 0 <= hit_length h /\
  (exists s, attempt sd text (hit_position h) = Ok s /\
             length s = hit_length h /\ trash s = 0 /\
             (forall ch, py_index text (pos s) = Ok ch -> recognized sd ch)) /\
  (exists before, py_index text (hit_position h - 1) = Ok before /\
                  before <> NL) /\
  (exists after,
      py_index text (hit_position h + hit_length h + 1) = Ok after /\
      after <> NL) /\
  hit_context h =
    flat_map shown
      (window text (Z.max 0 (hit_position h - 50))
         (Z.min (len text) (hit_position h + hit_length h + 50))).
Proof.
  intros Hsd (Hp & s & Hs & Hv & Hl & Hc).
  apply valid_telomere_true in Hv.
  destruct Hv as (Hlen & Htr & Hbefore & Hafter).
  destruct (attempt_ok sd text Hsd (hit_position h)) as (s' & Hs' & Hpost);
    [lia|].
  rewrite Hs in Hs'. injection Hs' as <-.
  destruct Hpost as (Hge & _ & Hlp & _ & Hun).
  rewrite Hl. repeat split; try lia; try assumption.
  - exists s. repeat split; try assumption.
    intros ch Hch.
    assert (Hdec : recognized sd ch \/ ~ recognized sd ch).
    { unfold recognized.
      destruct (ascii_dec ch (primary sd)); [tauto|].
      destruct (ascii_dec ch (secondary sd)); [tauto|].
      destruct (ascii_dec ch (noise1 sd)); [tauto|].
      destruct (ascii_dec ch (noise2 sd)); tauto. }
    destruct Hdec as [Hr|Hr]; [exact Hr|].
    specialize (Hun ch Hch Hr). lia.
  - rewrite Hc. apply make_context_window; lia.
Qed.

Lemma telofinder_emitted (text : text_t) (min_length : Z) (hits : list hit)
  (h : hit) :
  telofinder text min_length = Ok hits -> In h hits ->
  exists sd, (sd = strandA \/ sd = strandB) /\ emitted sd text min_length h.
Proof.
  intros Hrun Hin. apply telofinder_rows in Hrun.
  destruct Hrun as (hitsA & hitsB & -> & _ & _ & _ & HA & HB & _).
  apply in_app_or in Hin. rewrite Forall_forall in HA, HB.
  destruct Hin as [Hin|Hin]; [exists strandA|exists strandB]; auto.
Qed.

Lemma strongly_sorted_split {A : Type} (R : A -> A -> Prop)
  (l1 : list A) (x : A) (l2 : list A) :
  StronglySorted R (l1 ++ x :: l2) -> Forall (R x) l2.
Proof.
  induction l1 as [|y l1 IH]; simpl; intros H;
    apply StronglySorted_inv in H; destruct H as [Hs Hf]; auto.
Qed.

Lemma strongly_sorted_map {A B : Type} (R : A -> A -> Prop)
  (Q : B -> B -> Prop) (f : A -> B) (l : list A) :
  (forall x y, R x y -> Q (f x) (f y)) ->
  StronglySorted R l -> StronglySorted Q (map f l).
Proof.
  intros HRQ H. induction H as [|x l Hs IH Hf]; simpl; constructor; auto.
  rewrite Forall_map. eapply Forall_impl; [|exact Hf]. auto.
Qed.

Lemma indices_from_nth (n : nat) :
  forall k i x, nth_error (indices_from k n) i = Some x ->
                x = k + Z.of_nat i + 1.
Proof.
  induction n as [|n IH]; intros k i x.
  - destruct i; discriminate.
  - rewrite indices_from_cons. destruct i as [|i]; simpl.
    + intros [= <-]. lia.
    + intros H. apply IH in H. lia.
Qed.

(** ** The rows of a run *)

(** C4.  Every row of a completed run has [min_length < length < 1000] and
    comes from an attempt, on one of the two strands, that ended with
    [trash] equal to 0 and with its cursor not on an unrecognized
    character.  Conversely an attempt whose cursor ends on an unrecognized
    character has [trash] equal to 1 and fails the acceptance test,
    whatever its length. *)
Theorem hits_qualify (text : text_t) (min_length : Z) (hits : list hit) :
  telofinder text min_length = Ok hits ->
  (forall h, In h hits ->
     min_length < hit_length h < 1000 /\
     exists sd s,
       (sd = strandA \/ sd = strandB) /\
       attempt sd text (hit_position h) = Ok s /\
       length s = hit_length h /\ trash s = 0 /\
       forall ch, py_index text (pos s) = Ok ch -> recognized sd ch) /\
  (forall sd p s ch,
     sd = strandA \/ sd = strandB -> 0 <= p ->
     attempt sd text p = Ok s ->
     py_index text (pos s) = Ok ch -> ~ recognized sd ch ->
     trash s = 1 /\ valid_telomere text min_length p s = Ok false).
Proof.
  intros Hrun. split.
  - intros h Hin.
    destruct (telofinder_emitted _ _ _ _ Hrun Hin) as (sd & Hsd & Hem).
    apply emitted_facts in Hem; [|apply strands_distinct, Hsd].
    destruct Hem as (_ & Hlen & _ & (s & Hs) & _).
    split; [exact Hlen|]. exists sd, s. tauto.
  - intros sd p s ch Hsd Hp Hs Hch Hun.
    destruct (attempt_ok sd text (strands_distinct sd Hsd) p Hp)
      as (s' & Hs' & Hpost).
    rewrite Hs in Hs'. injection Hs' as <-.
    destruct Hpost as (_ & _ & _ & _ & Htr).
    specialize (Htr ch Hch Hun). split; [exact Htr|].
    unfold valid_telomere. rewrite Htr.
    destruct (negb (length s >? min_length)); [reflexivity|].
    destruct (negb (length s <? 1000)); reflexivity.
Qed.

(** C7.  The context of every row of a completed run is the window of the
    text from [max(0, position - 50)] to
    [min(text_length, position + length + 50)] with each newline shown as
    "END OF READ" and each tab as one space; it contains neither a newline
    nor a tab. *)
Theorem context_window (text : text_t) (min_length : Z) (hits : list hit)
  (h : hit) :
  telofinder text min_length = Ok hits -> In h hits ->
  hit_context h =
    flat_map shown
      (window text (Z.max 0 (hit_position h - 50))
         (Z.min (len text) (hit_position h + hit_length h + 50))) /\
  ~ In NL (hit_context h) /\ ~ In TAB (hit_context h).
Proof.
  intros Hrun Hin.
  destruct (telofinder_emitted _ _ _ _ Hrun Hin) as (sd & Hsd & Hem).
  apply emitted_facts in Hem; [|apply strands_distinct, Hsd].
  destruct Hem as (_ & _ & _ & _ & _ & _ & Hc).
  split; [exact Hc|]. rewrite Hc. apply flat_map_shown_clean.
Qed.

(** C8.  The rows of a completed run are the rows of the strand-A pass, in
    ascending order of position, followed by the rows of the strand-B pass,
    in ascending order of position, and the row at place [i] (from 0) of
    the whole list has index [i + 1]. *)
Theorem result_order (text : text_t) (min_length : Z) (hits : list hit) :
  telofinder text min_length = Ok hits ->
  exists hitsA hitsB,
    hits = hitsA ++ hitsB /\
    strand_pass strandA text min_length start =
      Ok {| index := Z.of_nat (List.length hitsA); results := hitsA |} /\
    strand_pass strandB text min_length
        {| index := Z.of_nat (List.length hitsA); results := [] |} =
      Ok {| index := Z.of_nat (List.length hits); results := hitsB |} /\
    StronglySorted Z.lt (map hit_position hitsA) /\
    StronglySorted Z.lt (map hit_position hitsB) /\
    forall i h, nth_error hits i = Some h -> hit_index h = Z.of_nat i + 1.
Proof.
  intros Hrun. apply telofinder_rows in Hrun.
  destruct Hrun as (hitsA & hitsB & E & HA & HB & Hidx & _ & _ & HsA & HsB).
  exists hitsA, hitsB. repeat split; try assumption.
  - eapply strongly_sorted_map; [|exact HsA]. unfold precedes. tauto.
  - eapply strongly_sorted_map; [|exact HsB]. unfold precedes. tauto.
  - intros i h Hnth.
    apply (map_nth_error hit_index) in Hnth. rewrite Hidx in Hnth.
    apply indices_from_nth in Hnth. lia.
Qed.

(** C9, as amended.  Within one strand pass the rows do not overlap: a
    later row starts at or after the offset where an earlier row ends,
    [position + length]; it may start exactly there. *)
Theorem hits_disjoint (sd : strand) (text : text_t) (min_length : Z)
  (c c' : collector) :
  sd = strandA \/ sd = strandB ->
  strand_pass sd text min_length c = Ok c' ->
  exists new,
    results c' = results c ++ new /\
    forall l1 h1 l2 h2 l3,
      new = l1 ++ h1 :: l2 ++ h2 :: l3 ->
      0 <= hit_length h1 /\
      hit_position h1 + hit_length h1 <= hit_position h2.
Proof.
  intros Hsd Hrun. apply strands_distinct in Hsd.
  apply strand_pass_spec in Hrun; [|exact Hsd].
  destruct Hrun as (new & -> & _ & _ & Hem & Hsort).
  exists new. split; [reflexivity|].
  intros l1 h1 l2 h2 l3 ->. split.
  - rewrite Forall_forall in Hem.
    destruct (emitted_facts sd text min_length h1 Hsd) as (_ & _ & H & _);
      [|exact H].
    apply Hem, in_or_app. right. left. reflexivity.
  - apply strongly_sorted_split in Hsort. rewrite Forall_forall in Hsort.
    apply Hsort, in_or_app. right. left. reflexivity.
Qed.

(** C10.  When the text ends with a newline, no row of a completed run has
    position 0: the subscript [position - 1] of the acceptance test is
    [-1] there, which reads the last character of the text. *)
Theorem no_hit_at_zero (body : text_t) (min_length : Z) (hits : list hit)
  (h : hit) :
  telofinder (body ++ [NL]) min_length = Ok hits -> In h hits ->
  py_index (body ++ [NL]) (0 - 1) = Ok NL /\ hit_position h <> 0.
Proof.
  intros Hrun Hin. split; [apply py_index_minus_one|].
  destruct (telofinder_emitted _ _ _ _ Hrun Hin) as (sd & Hsd & Hem).
  apply emitted_facts in Hem; [|apply strands_distinct, Hsd].
  destruct Hem as (_ & _ & _ & _ & (before & Hb & Hne) & _).
  intros E. rewrite E, py_index_minus_one in Hb. congruence.
Qed.

(** ** The offsets at which attempts start *)

Section Starts.

Variables (sd : strand) (text : text_t).
Hypothesis sd_distinct : distinct sd.

Lemma starts_loop_eq (fuel : nat) (p : Z) :
  starts_loop fuel sd text p =
  if p <? len text then
    match fuel with
    | O => []
    | S fuel' =>
        match attempt sd text p with
        | Ok s => p :: starts_loop fuel' sd text (pos s + 1)
        | _ => [p]
        end
    end
  else [].
Proof. destruct fuel; reflexivity. Qed.

Lemma py_index_not_fuel (i : Z) : py_index text i <> OutOfFuel.
Proof.
  unfold py_index. destruct (_ || _); [discriminate|].
  destruct (nth_error text _); discriminate.
Qed.

Lemma valid_telomere_not_fuel (min_length p : Z) (s : counters) :
  valid_telomere text min_length p s <> OutOfFuel.
Proof.
  unfold valid_telomere.
  destruct (negb (length s >? min_length)); [discriminate|].
  destruct (negb (length s <? 1000)); [discriminate|].
  destruct (negb (trash s =? 0)); [discriminate|].
  destruct (py_index text (p - 1)) as [c1| |] eqn:E1; simpl;
    [|discriminate|exfalso; exact (py_index_not_fuel _ E1)].
  destruct (Ascii.eqb c1 NL); [discriminate|].
  destruct (py_index text (p + length s + 1)) as [c2| |] eqn:E2; simpl;
    [discriminate|discriminate|exfalso; exact (py_index_not_fuel _ E2)].
Qed.

Lemma attempts_loop_eq (min_length : Z) (fuel : nat) (p : Z) :
  attempts_loop fuel sd text min_length p =
  if p <? len text then
    match fuel with
    | O => []
    | S fuel' =>
        match attempt sd text p with
        | Ok s =>
            match valid_telomere text min_length p s with
            | Ok _ => p :: attempts_loop fuel' sd text min_length (pos s + 1)
            | _ => [p]
            end
        | _ => [p]
        end
    end
  else [].
Proof. destruct fuel; reflexivity. Qed.

(** The attempts a pass makes are the first part of its schedule. *)
Lemma attempts_loop_prefix (min_length : Z) (fuel : nat) :
  forall p, exists rest,
    starts_loop fuel sd text p =
    attempts_loop fuel sd text min_length p ++ rest.
Proof.
  induction fuel as [|fuel IH]; intros p;
    rewrite starts_loop_eq, attempts_loop_eq;
    destruct (p <? len text); try (exists []; reflexivity).
  destruct (attempt sd text p) as [s| |]; try (exists []; reflexivity).
  destruct (IH (pos s + 1)) as [rest E].
  destruct (valid_telomere text min_length p s).
  - exists rest. rewrite E. reflexivity.
  - exists (starts_loop fuel sd text (pos s + 1)). reflexivity.
  - exists (starts_loop fuel sd text (pos s + 1)). reflexivity.
Qed.

(** A pass that completes has made every attempt of its schedule. *)
Lemma attempts_loop_complete (min_length : Z) (fuel : nat) :
  forall p c c',
    scan_loop fuel sd text min_length p c = Ok c' ->
    attempts_loop fuel sd text min_length p = starts_loop fuel sd text p.
Proof.
  induction fuel as [|fuel IH]; intros p c c';
    rewrite scan_loop_eq, starts_loop_eq, attempts_loop_eq;
    destruct (p <? len text); try reflexivity.
  destruct (attempt sd text p) as [s| |]; simpl; try discriminate.
  destruct (valid_telomere text min_length p s) as [ok| |]; simpl;
    try discriminate.
  intros H. apply IH in H. rewrite H. reflexivity.
Qed.

(** One step of the outer loop, seen from the list of attempts. *)
Lemma attempts_loop_step (min_length : Z) (fuel : nat) (p : Z) :
  0 <= p ->
  attempts_loop fuel sd text min_length p = [] \/
  exists fuel' s,
    fuel = S fuel' /\ p < len text /\ attempt sd text p = Ok s /\
    p <= pos s /\ p + length s <= pos s + 1 /\
    (attempts_loop fuel sd text min_length p = [p] \/
     attempts_loop fuel sd text min_length p =
       p :: attempts_loop fuel' sd text min_length (pos s + 1)).
Proof.
  intros Hp. rewrite attempts_loop_eq.
  destruct (Z.ltb_spec p (len text)) as [HL|HL]; [|left; reflexivity].
  destruct fuel as [|fuel']; [left; reflexivity|]. right.
  destruct (attempt_ok sd text sd_distinct p Hp) as (s & Hs & Hpost).
  rewrite Hs. exists fuel', s.
  destruct Hpost as (Hge & _ & Hlen & _).
  repeat split; try assumption; try lia.
  destruct (valid_telomere text min_length p s); auto.
Qed.

Lemma attempts_loop_adjacent (min_length : Z) (fuel : nat) :
  forall p l1 a b l2,
    0 <= p ->
    attempts_loop fuel sd text min_length p = l1 ++ a :: b :: l2 ->
    exists s, attempt sd text a = Ok s /\ b = pos s + 1 /\
              a + length s <= b.
Proof.
  induction fuel as [|fuel IH]; intros p l1 a b l2 Hp E;
    match type of E with attempts_loop ?f _ _ _ _ = _ =>
      destruct (attempts_loop_step min_length f p Hp)
        as [E0|(fuel' & s & Ef & HL & Hs & Hge & Hlen & [E1|E1])]
    end;
    try (rewrite E0 in E; destruct l1; discriminate); try discriminate.
  - rewrite E1 in E. destruct l1 as [|x [|y l1]]; discriminate E.
  - injection Ef as <-. rewrite E1 in E.
    destruct l1 as [|x l1]; simpl in E; injection E as <- E.
    + exists s. split; [exact Hs|].
      destruct (attempts_loop_step min_length fuel (pos s + 1))
        as [E0|(f2 & s2 & _ & _ & _ & _ & _ & [E2|E2])]; [lia| | |].
      * rewrite E0 in E. discriminate.
      * rewrite E2 in E. injection E as <- _. split; [reflexivity|lia].
      * rewrite E2 in E. injection E as <- _. split; [reflexivity|lia].
    + apply (IH (pos s + 1) l1 a b l2); [lia|exact E].
Qed.

(** The rows a pass adds sit at starts of its attempts. *)
Lemma scan_loop_attempts (min_length : Z) (fuel : nat) :
  forall p c c' h,
    scan_loop fuel sd text min_length p c = Ok c' ->
    In h (results c') ->
    In h (results c) \/
    In (hit_position h) (attempts_loop fuel sd text min_length p).
Proof.
  induction fuel as [|fuel IH]; intros p c c' h;
    rewrite scan_loop_eq, attempts_loop_eq;
    destruct (p <? len text); try discriminate.
  1, 3: intros [= <-]; auto.
  destruct (attempt sd text p) as [s| |]; simpl; try discriminate.
  destruct (valid_telomere text min_length p s) as [ok| |]; simpl;
    try discriminate.
  intros Hrun Hin.
  destruct (IH _ _ _ _ Hrun Hin) as [H|H]; [|right; right; exact H].
  destruct ok; [|left; exact H].
  simpl in H. apply in_app_or in H.
  destruct H as [H|[<-|[]]]; [left; exact H|]. right. left. reflexivity.
Qed.

(** A pass that completes has had every offset from its cursor on under
    one of its attempts. *)
Lemma scan_loop_cover (min_length : Z) (fuel : nat) :
  forall p c c' i,
    0 <= p -> scan_loop fuel sd text min_length p c = Ok c' ->
    p <= i < len text ->
    exists q s, In q (attempts_loop fuel sd text min_length p) /\
                attempt sd text q = Ok s /\ q <= i <= pos s.
Proof.
  induction fuel as [|fuel IH]; intros p c c' i Hp;
    rewrite scan_loop_eq, attempts_loop_eq;
    destruct (Z.ltb_spec p (len text)) as [HL|HL]; try discriminate;
    try (intros _ Hi; lia).
  destruct (attempt_ok sd text sd_distinct p Hp) as (s & Hs & Hge & _).
  rewrite Hs. simpl.
  destruct (valid_telomere text min_length p s) as [ok| |]; simpl;
    try discriminate.
  intros Hrun Hi.
  destruct (Z.le_gt_cases i (pos s)) as [Hle|Hgt].
  - exists p, s. split; [left; reflexivity|]. split; [exact Hs|lia].
  - destruct (IH (pos s + 1) _ _ i ltac:(lia) Hrun) as (q & s' & Hq & H);
      [lia|].
    exists q, s'. split; [right; exact Hq|exact H].
Qed.

(** The last attempt of a pass either leaves the cursor on the last
    character or at the end of the text, or is the one whose acceptance
    test raises, which ends the pass with that error. *)
Lemma attempts_loop_last (min_length : Z) (fuel : nat) :
  forall p l a,
    0 <= p -> (Z.to_nat (len text - p) <= fuel)%nat ->
    attempts_loop fuel sd text min_length p = l ++ [a] ->
    exists s,
      attempt sd text a = Ok s /\
      ((len text <= pos s + 1 /\
        exists ok, valid_telomere text min_length a s = Ok ok) \/
       (valid_telomere text min_length a s = IndexError /\
        forall c, scan_loop fuel sd text min_length p c = IndexError)).
Proof.
  induction fuel as [|fuel IH]; intros p l a Hp Hfuel;
    rewrite attempts_loop_eq;
    destruct (Z.ltb_spec p (len text)) as [HL|HL];
    try (intros E; destruct l; discriminate E); try lia.
  destruct (attempt_ok sd text sd_distinct p Hp) as (s & Hs & Hge & _).
  rewrite Hs.
  destruct (valid_telomere text min_length p s) as [ok| |] eqn:Hv.
  - intros E. destruct l as [|x l]; simpl in E; injection E as <- E.
    + exists s. split; [exact Hs|]. left. split; [|eauto].
      rewrite attempts_loop_eq in E.
      destruct (Z.ltb_spec (pos s + 1) (len text)) as [HL'|HL']; [|lia].
      destruct fuel; [lia|].
      destruct (attempt sd text (pos s + 1)) as [s'| |]; try discriminate.
      destruct (valid_telomere text min_length (pos s + 1) s');
        discriminate.
    + destruct (IH (pos s + 1) l a) as (s' & Hs' & H); [lia|lia|exact E|].
      exists s'. split; [exact Hs'|].
      destruct H as [H|[Hf Hall]]; [left; exact H|right].
      split; [exact Hf|]. intros c. rewrite scan_loop_eq.
      destruct (Z.ltb_spec p (len text)); [|lia].
      rewrite Hs. simpl. rewrite Hv. simpl. apply Hall.
  - intros E. destruct l as [|x l]; simpl in E.
    + injection E as <-. exists s. split; [exact Hs|]. right.
      split; [exact Hv|]. intros c. rewrite scan_loop_eq.
      destruct (Z.ltb_spec p (len text)); [|lia].
      rewrite Hs. simpl. rewrite Hv. reflexivity.
    + injection E as _ E. destruct l; discriminate E.
  - exfalso. exact (valid_telomere_not_fuel _ _ _ Hv).
Qed.

End Starts.

(** C1, as amended.  In each strand pass the first attempt starts at
    offset 0 and every later attempt starts one past the offset at which
    the attempt before it left the cursor: the outer loop adds exactly 1,
    accepted or not, to the cursor that the attempt itself has moved.  A
    later attempt therefore never starts inside the characters the one
    before it counted.  The last attempt of the pass either leaves the
    cursor on the last character or at the end of the text, or is the one
    whose acceptance test raises [IndexError], which ends the pass; and
    every row has the start of one of the attempts as its position. *)
Theorem attempts_chain (sd : strand) (text : text_t) (min_length : Z) :
  sd = strandA \/ sd = strandB ->
  (text <> [] -> exists rest, pass_attempts sd text min_length = 0 :: rest) /\
  (forall l1 a b l2,
     pass_attempts sd text min_length = l1 ++ a :: b :: l2 ->
     exists s, attempt sd text a = Ok s /\ b = pos s + 1 /\
               a + length s <= b) /\
  (forall l a,
     pass_attempts sd text min_length = l ++ [a] ->
     exists s,
       attempt sd text a = Ok s /\
       ((len text <= pos s + 1 /\
         exists ok, valid_telomere text min_length a s = Ok ok) \/
        (valid_telomere text min_length a s = IndexError /\
         forall c, strand_pass sd text min_length c = IndexError))) /\
  (forall c c' h,
     strand_pass sd text min_length c = Ok c' -> In h (results c') ->
     In h (results c) \/
     In (hit_position h) (pass_attempts sd text min_length)).
Proof.
  intros Hsd. apply strands_distinct in Hsd. unfold pass_attempts.
  split; [|split; [|split]].
  - intros Hne. rewrite attempts_loop_eq.
    destruct text as [|x t]; [congruence|].
    change (0 <? len (x :: t)) with true. simpl List.length.
    destruct (attempt sd (x :: t) 0) as [s| |]; eauto.
    destruct (valid_telomere (x :: t) min_length 0 s); eauto.
  - intros l1 a b l2 E.
    eapply attempts_loop_adjacent; [exact Hsd| |exact E]. lia.
  - intros l a E. unfold strand_pass.
    eapply attempts_loop_last; [exact Hsd|lia| |exact E].
    unfold len. lia.
  - intros c c' h Hrun Hin. unfold strand_pass in Hrun.
    eapply scan_loop_attempts; [exact Hrun|exact Hin].
Qed.

(** ** The stop tests and the noise window *)

(** A [break] out of a state the loop passes through ends the attempt
    with the counters as they stand. *)
Lemma break_ends_attempt (sd : strand) (text : text_t) (p : Z)
  (s r : counters) :
  0 <= p -> loop_head sd text p s -> pos s < len text ->
  loop_body sd text s = Ok (Break, r) -> attempt sd text p = Ok r.
Proof.
  intros Hp Hhead HL Hbody.
  rewrite <- (loop_head_run sd text p s Hp Hhead
                (S (Z.to_nat (len text - pos s)))) by lia.
  rewrite inner_loop_eq.
  destruct (Z.ltb_spec (pos s) (len text)); [|lia].
  rewrite Hbody. reflexivity.
Qed.

Lemma count_noise (sd : strand) (l : text_t) :
  noise1 sd <> noise2 sd ->
  (count_occ ascii_dec l (noise1 sd) + count_occ ascii_dec l (noise2 sd))%nat
  = List.length (filter (is_noise sd) l).
Proof.
  intros Hne. induction l as [|x l IH]; simpl; [reflexivity|].
  unfold is_noise at 1.
  destruct (ascii_dec x (noise1 sd)) as [E1|E1];
    destruct (ascii_dec x (noise2 sd)) as [E2|E2];
    try congruence.
  - subst x. rewrite Ascii.eqb_refl. simpl. lia.
  - subst x. rewrite Ascii.eqb_refl, orb_true_r. simpl. lia.
  - apply Ascii.eqb_neq in E1, E2. rewrite E1, E2. simpl. exact IH.
Qed.

Lemma forward_slice (text : text_t) (p : Z) :
  0 <= p <= len text ->
  py_slice text p (p + 15) = firstn 15 (skipn (Z.to_nat p) text).
Proof.
  intros Hp. unfold py_slice. rewrite (clamp_id _ p) by lia.
  unfold clamp. destruct (Z.ltb_spec (p + 15) 0); [lia|].
  destruct (Z.ltb_spec (p + 15) 0); [lia|].
  destruct (Z.ltb_spec (len text) (p + 15)).
  - rewrite !firstn_all2; [reflexivity| |]; rewrite length_skipn;
      unfold len in *; lia.
  - f_equal. lia.
Qed.

(** The two [count] calls of lines 103 / 166 add up to the number of noise
    characters in the forward window. *)
Lemma counts_window_noise (sd : strand) (text : text_t) (p : Z) :
  noise1 sd <> noise2 sd -> 0 <= p <= len text ->
  py_count text (noise1 sd) p (p + 15) + py_count text (noise2 sd) p (p + 15)
  = window_noise sd text p.
Proof.
  intros Hne Hp. unfold py_count, window_noise.
  rewrite forward_slice by exact Hp.
  rewrite <- Nat2Z.inj_add, count_noise by exact Hne. reflexivity.
Qed.

(** C5.  In an attempt on either strand, once the current character has
    been counted ([classify] fell through with counters [s1]), [trash] is
    still 0, and: if [tt > 3] the iteration breaks and the attempt ends
    with these counters; if [gg > 5] likewise; if [gt > 10] the iteration
    sets [trash] to 1 and breaks, and the attempt ends so. *)
Theorem stop_conditions (sd : strand) (text : text_t) (p : Z)
  (s s1 : counters) :
  sd = strandA \/ sd = strandB -> 0 <= p ->
  loop_head sd text p s -> pos s < len text ->
  classify sd text s = Ok (Next, s1) ->
  trash s1 = 0 /\
  (tt s1 > 3 ->
     loop_body sd text s = Ok (Break, s1) /\ attempt sd text p = Ok s1) /\
  (gg s1 > 5 ->
     loop_body sd text s = Ok (Break, s1) /\ attempt sd text p = Ok s1) /\
  (gt s1 > 10 ->
     loop_body sd text s = Ok (Break, set_trash s1 1) /\
     attempt sd text p = Ok (set_trash s1 1)).
Proof.
  intros Hsd Hp Hhead HL Hcl. apply strands_distinct in Hsd.
  pose proof (loop_head_head_inv sd text Hsd p s Hp Hhead) as Hinv.
  destruct Hinv as (_ & _ & Htr & _ & Htt & Hgg & Hgt & Hprev).
  assert (Hbody : loop_body sd text s = Ok (stop_checks s1)).
  { unfold loop_body. rewrite Hcl. reflexivity. }
  assert (Hs1 : trash s1 = 0 /\ (gt s1 > 10 -> tt s1 <= 3 /\ gg s1 <= 5)).
  { revert Hcl. unfold classify.
    destruct (py_index text (pos s)) as [ch| |]; simpl; try discriminate.
    destruct (Ascii.eqb ch (primary sd)).
    - destruct (py_index text (pos s - 1)) as [prev| |] eqn:Hprv; simpl;
        try discriminate.
      intros [= <-]. simpl. split; [exact Htr|].
      destruct (Ascii.eqb_spec prev (secondary sd)) as [->|Hne]; [|lia].
      specialize (Hprev eq_refl). lia.
    - destruct (Ascii.eqb ch (secondary sd)).
      + intros [= <-]. simpl. split; [exact Htr|]. lia.
      + destruct (Ascii.eqb ch (noise1 sd) || Ascii.eqb ch (noise2 sd)).
        * match goal with |- context [?n >? 2] => destruct (n >? 2) end;
            [discriminate|].
          intros [= <-]. simpl. split; [exact Htr|]. lia.
        * discriminate. }
  destruct Hs1 as [Htr1 Hgt1]. split; [exact Htr1|].
  assert (Hend : forall r, stop_checks s1 = (Break, r) ->
                           loop_body sd text s = Ok (Break, r) /\
                           attempt sd text p = Ok r).
  { intros r Hr. rewrite Hr in Hbody. split; [exact Hbody|].
    eapply break_ends_attempt; eauto. }
  split; [|split]; intros Hc; apply Hend; unfold stop_checks.
  - destruct (Z.gtb_spec (tt s1) 3); [reflexivity|lia].
  - destruct (Z.gtb_spec (tt s1) 3); [reflexivity|].
    destruct (Z.gtb_spec (gg s1) 5); [reflexivity|lia].
  - destruct (Hgt1 Hc).
    destruct (Z.gtb_spec (tt s1) 3); [lia|].
    destruct (Z.gtb_spec (gg s1) 5); [lia|].
    destruct (Z.gtb_spec (gt s1) 10); [reflexivity|lia].
Qed.

(** C6.  In an attempt on either strand, when the cursor is on a noise
    character the counter [ac] stands at 0 and the number [n] of noise
    characters at the offsets [pos .. pos+14] that exist is compared with
    2: if [n > 2] the iteration breaks with [pos], [length] and [trash]
    untouched (only [ac] holds [n]) and the attempt ends there; otherwise
    the character is counted ([length + 1]), [ac] is back at 0 and the loop
    goes on at [pos + 1]. *)
Theorem noise_window (sd : strand) (text : text_t) (p : Z) (s : counters)
  (ch : ascii) :
  sd = strandA \/ sd = strandB -> 0 <= p ->
  loop_head sd text p s ->
  py_index text (pos s) = Ok ch -> ch = noise1 sd \/ ch = noise2 sd ->
  ac s = 0 /\ trash s = 0 /\
  (window_noise sd text (pos s) > 2 ->
     loop_body sd text s = Ok (Break, set_ac s (window_noise sd text (pos s)))
     /\ attempt sd text p = Ok (set_ac s (window_noise sd text (pos s)))) /\
  (window_noise sd text (pos s) <= 2 ->
     loop_body sd text s =
       Ok (Next, {| pos := pos s + 1; length := length s + 1;
                    trash := trash s; ac := 0;
                    gt := gt s; tt := tt s; gg := gg s |})).
Proof.
  intros Hsd Hp Hhead Hch Hnoise. apply strands_distinct in Hsd.
  pose proof (loop_head_head_inv sd text Hsd p s Hp Hhead) as Hinv.
  destruct Hinv as (Hps & _ & Htr & Hac & Htt & Hgg & Hgt & _).
  destruct (py_index_nonneg text (pos s) ch) as [HL _]; [lia|exact Hch|].
  destruct Hsd as (D1 & D2 & D3 & D4 & D5 & D6).
  assert (Hcl : classify sd text s =
                if window_noise sd text (pos s) >? 2
                then Ok (Break, set_ac s (window_noise sd text (pos s)))
                else Ok (Next, {| pos := pos s; length := length s + 1;
                                  trash := trash s; ac := 0;
                                  gt := gt s; tt := tt s; gg := gg s |})).
  { unfold classify. rewrite Hch. simpl.
    rewrite counts_window_noise by (auto; lia).
    destruct (Ascii.eqb_spec ch (primary sd));
      [destruct Hnoise; congruence|].
    destruct (Ascii.eqb_spec ch (secondary sd));
      [destruct Hnoise; congruence|].
    destruct (Ascii.eqb_spec ch (noise1 sd));
      destruct (Ascii.eqb_spec ch (noise2 sd)); simpl;
      try reflexivity.
    destruct Hnoise; contradiction. }
  split; [exact Hac|]. split; [exact Htr|]. split; [intros Hn; split|].
  - unfold loop_body. rewrite Hcl.
    destruct (Z.gtb_spec (window_noise sd text (pos s)) 2); [|lia].
    reflexivity.
  - eapply break_ends_attempt; eauto.
    unfold loop_body. rewrite Hcl.
    destruct (Z.gtb_spec (window_noise sd text (pos s)) 2); [|lia].
    reflexivity.
  - intros Hn. unfold loop_body. rewrite Hcl.
    destruct (Z.gtb_spec (window_noise sd text (pos s)) 2); [lia|].
    simpl. unfold stop_checks. simpl.
    destruct (Z.gtb_spec (tt s) 3); [lia|].
    destruct (Z.gtb_spec (gg s) 5); [lia|].
    destruct (Z.gtb_spec (gt s) 10); [lia|].
    reflexivity.
Qed.

Lemma iterate_loop_head (sd : strand) (text : text_t) (p : Z) (n : nat) :
  forall s s',
    loop_head sd text p s -> iterate n sd text s = Some s' ->
    loop_head sd text p s'.
Proof.
  induction n as [|n IH]; intros s s' Hhead; simpl.
  - intros [= <-]. exact Hhead.
  - destruct (Z.ltb_spec (pos s) (len text)) as [HL|HL]; [|discriminate].
    destruct (loop_body sd text s) as [[[|] s1]| |] eqn:E; try discriminate.
    apply IH. eapply head_next; eauto.
Qed.

(** ** Particular texts *)

(** C1, as stated, fails: on the text "GG", with [min_length = 50], the
    strand-A pass completes after one attempt, at offset 0, and makes none
    at offset 1. *)
Lemma attempts_skip_offsets :
  pass_attempts strandA (txt "GG") 50 = [0] /\
  strand_pass strandA (txt "GG") 50 start = Ok start /\
  all_offsets (txt "GG") = [0; 1] /\
  pass_attempts strandA (txt "GG") 50 <> all_offsets (txt "GG").
Proof.
  split; [|split; [|split]]; [reflexivity|reflexivity|reflexivity|discriminate].
Qed.

(** C2, as stated, fails: the strand-A pass over 200 times "G" with
    [min_length = 50] does not end with exactly one row of length 200 at
    position 0. *)
Lemma all_G_not_one_hit :
  ~ exists c h,
      strand_pass strandA G200 50 start = Ok c /\ results c = [h] /\
      hit_length h = 200 /\ hit_position h = 0.
Proof.
  intros (c & h & Hrun & Hres & _).
  assert (E : strand_pass strandA G200 50 start = Ok start)
    by (vm_compute; reflexivity).
  rewrite E in Hrun. clear E. injection Hrun as <-. discriminate Hres.
Qed.

(** C2, as amended.  Over 200 times "G" with [min_length = 50] the
    strand-A pass appends no row.  Its attempts start at the offsets 0, 6,
    ..., 198: each of the 33 attempts at 0, 6, ..., 192 stops on its sixth
    "G" ([gg > 5]) with length 6, and the attempt at 198 runs to the end of
    the text with length 2, so no length is above 50; the whole run ends
    with no row at all. *)
Theorem all_G_no_hit :
  attempt strandA G200 0 =
    Ok {| pos := 5; length := 6; trash := 0; ac := 0;
          gt := 0; tt := 0; gg := 6 |} /\
  strand_pass strandA G200 50 start = Ok start /\
  telofinder G200 50 = Ok [] /\
  pass_attempts strandA G200 50 =
    map (fun k => 6 * Z.of_nat k) (seq 0 34) /\
  map (fun k => attempt strandA G200 (6 * Z.of_nat k)) (seq 0 33) =
    map (fun k => Ok {| pos := 6 * Z.of_nat k + 5; length := 6; trash := 0;
                        ac := 0; gt := 0; tt := 0; gg := 6 |}) (seq 0 33) /\
  attempt strandA G200 198 =
    Ok {| pos := 200; length := 2; trash := 0; ac := 0;
          gt := 0; tt := 0; gg := 2 |}.
Proof.
  split; [|split; [|split; [|split; [|split]]]]; vm_compute; reflexivity.
Qed.

(** C3.  The script on 18 times "GGT" (54 characters, no final newline)
    with [min_length = 50]: the attempt at offset 0 counts all 54
    characters, the probe [text[position + length + 1]] is the subscript
    55, which raises [IndexError], and the run ends with that error
    instead of rows.  The probe [text[position - 1]] at position 0 is the
    subscript [-1], which reads the last character. *)
Theorem probe_past_end_faults :
  len GGT18 = 54 /\
  attempt strandA GGT18 0 =
    Ok {| pos := 54; length := 54; trash := 0; ac := 0;
          gt := 0; tt := 1; gg := 0 |} /\
  py_index GGT18 (0 + 54 + 1) = IndexError /\
  py_index GGT18 (0 - 1) = Ok "T"%char /\
  telofinder GGT18 50 = IndexError.
Proof. split; [|split; [|split; [|split]]]; vm_compute; reflexivity. Qed.

(** C9, as stated, fails: on 14 times "G" and an "X", with
    [min_length = 0], the strand-A pass appends a row of length 6 at
    position 0 and a row at position 6, which is not strictly greater than
    0 + 6. *)
Lemma adjacent_hits_touch :
  exists h1 h2,
    strand_pass strandA G14X 0 start =
      Ok {| index := 2; results := [h1; h2] |} /\
    hit_position h1 = 0 /\ hit_length h1 = 6 /\ hit_position h2 = 6 /\
    ~ (hit_position h1 + hit_length h1 < hit_position h2).
Proof.
  exists {| hit_index := 1; hit_length := 6; hit_position := 0;
            hit_context := G14X |},
         {| hit_index := 2; hit_length := 6; hit_position := 6;
            hit_context := G14X |}.
  split; [vm_compute; reflexivity|]. simpl. lia.
Qed.

(** ** Instances *)

(** C1 on 14 times "G" and an "X", where the pass completes after
    attempts at 0, 6 and 12, and on 6 times "G" and an "X", where the
    acceptance test of the attempt at 0 raises. *)
Lemma attempts_chain_witness :
  pass_attempts strandA G14X 0 = [0; 6; 12] /\
  (exists s, attempt strandA G14X 0 = Ok s /\ 6 = pos s + 1 /\
             0 + length s <= 6) /\
  pass_attempts strandA G6X 0 = [0] /\
  (exists s,
     attempt strandA G6X 0 = Ok s /\
     ((len G6X <= pos s + 1 /\
       exists ok, valid_telomere G6X 0 0 s = Ok ok) \/
      (valid_telomere G6X 0 0 s = IndexError /\
       forall c, strand_pass strandA G6X 0 c = IndexError))).
Proof.
  split; [reflexivity|]. split; [|split; [reflexivity|]].
  - exact (proj1 (proj2 (attempts_chain strandA G14X 0 (or_introl eq_refl)))
             [] 0 6 [12] eq_refl).
  - exact (proj1 (proj2 (proj2
             (attempts_chain strandA G6X 0 (or_introl eq_refl))))
             [] 0 eq_refl).
Defined.

(** C4 on a tab, eight "G" and a newline, with [min_length = 0]. *)
Lemma hits_qualify_witness :
  telofinder (tab_run ++ [NL]) 0 = Ok [tab_hit] /\
  0 < hit_length tab_hit < 1000 /\
  exists sd s,
    (sd = strandA \/ sd = strandB) /\
    attempt sd (tab_run ++ [NL]) (hit_position tab_hit) = Ok s /\
    length s = hit_length tab_hit /\ trash s = 0 /\
    forall ch, py_index (tab_run ++ [NL]) (pos s) = Ok ch -> recognized sd ch.
Proof.
  split; [reflexivity|].
  apply (proj1 (hits_qualify (tab_run ++ [NL]) 0 [tab_hit] eq_refl)).
  left. reflexivity.
Defined.

(** C7 on the same text: the tab and the newline of the window are shown
    as a space and as "END OF READ". *)
Lemma context_window_witness :
  telofinder (tab_run ++ [NL]) 0 = Ok [tab_hit] /\
  hit_context tab_hit =
    flat_map shown (window (tab_run ++ [NL]) (Z.max 0 (1 - 50))
                      (Z.min (len (tab_run ++ [NL])) (1 + 6 + 50))) /\
  ~ In NL (hit_context tab_hit) /\ ~ In TAB (hit_context tab_hit).
Proof.
  split; [reflexivity|].
  apply (context_window (tab_run ++ [NL]) 0 [tab_hit] tab_hit eq_refl).
  left. reflexivity.
Defined.

(** C8 on a text with two rows on each strand. *)
Lemma result_order_witness :
  telofinder two_strands 0 = Ok two_strands_hits /\
  exists hitsA hitsB,
    two_strands_hits = hitsA ++ hitsB /\
    strand_pass strandA two_strands 0 start =
      Ok {| index := Z.of_nat (List.length hitsA); results := hitsA |} /\
    strand_pass strandB two_strands 0
        {| index := Z.of_nat (List.length hitsA); results := [] |} =
      Ok {| index := Z.of_nat (List.length two_strands_hits);
            results := hitsB |} /\
    StronglySorted Z.lt (map hit_position hitsA) /\
    StronglySorted Z.lt (map hit_position hitsB) /\
    forall i h, nth_error two_strands_hits i = Some h ->
                hit_index h = Z.of_nat i + 1.
Proof.
  split; [reflexivity|].
  exact (result_order two_strands 0 two_strands_hits eq_refl).
Defined.

(** C9 on the strand-A pass over the same text: rows at 1 and at 7. *)
Lemma hits_disjoint_witness :
  strand_pass strandA two_strands 0 start =
    Ok {| index := 2; results := firstn 2 two_strands_hits |} /\
  exists new,
    firstn 2 two_strands_hits = results start ++ new /\
    forall l1 h1 l2 h2 l3,
      new = l1 ++ h1 :: l2 ++ h2 :: l3 ->
      0 <= hit_length h1 /\
      hit_position h1 + hit_length h1 <= hit_position h2.
Proof.
  split; [reflexivity|].
  exact (hits_disjoint strandA two_strands 0 start
           {| index := 2; results := firstn 2 two_strands_hits |}
           (or_introl eq_refl) eq_refl).
Defined.

(** C10 on 14 times "G" and a newline, with [min_length = 0]: the attempt
    at 0 has length 6 and [trash] 0, so the acceptance test gets as far as
    [text[position - 1]], which reads the final newline; the only row is
    the one at 6. *)
Lemma no_hit_at_zero_witness :
  telofinder (G14 ++ [NL]) 0 = Ok [G14_hit] /\
  attempt strandA (G14 ++ [NL]) 0 =
    Ok {| pos := 5; length := 6; trash := 0; ac := 0;
          gt := 0; tt := 0; gg := 6 |} /\
  py_index (G14 ++ [NL]) (0 - 1) = Ok NL /\ hit_position G14_hit <> 0.
Proof.
  split; [reflexivity|]. split; [reflexivity|].
  apply (no_hit_at_zero G14 0 [G14_hit] G14_hit eq_refl).
  left. reflexivity.
Defined.

(** C5 on three texts, one for each stop test. *)
Lemma stop_conditions_witness :
  attempt strandA (txt "GGTTTTGG") 0 =
    Ok {| pos := 5; length := 6; trash := 0; ac := 0;
          gt := 0; tt := 4; gg := 0 |} /\
  attempt strandA G14X 0 =
    Ok {| pos := 5; length := 6; trash := 0; ac := 0;
          gt := 0; tt := 0; gg := 6 |} /\
  attempt strandA TG11 0 =
    Ok {| pos := 21; length := 22; trash := 1; ac := 0;
          gt := 11; tt := 0; gg := 1 |}.
Proof.
  split; [|split].
  - destruct (stop_conditions strandA (txt "GGTTTTGG") 0
                {| pos := 5; length := 5; trash := 0; ac := 0;
                   gt := 0; tt := 3; gg := 0 |}
                {| pos := 5; length := 6; trash := 0; ac := 0;
                   gt := 0; tt := 4; gg := 0 |})
      as (_ & Htt & _ & _).
    + left. reflexivity.
    + lia.
    + apply (iterate_loop_head _ _ _ 5 (reset 0));
        [apply head_reset | reflexivity].
    + reflexivity.
    + reflexivity.
    + apply Htt. reflexivity.
  - destruct (stop_conditions strandA G14X 0
                {| pos := 5; length := 5; trash := 0; ac := 0;
                   gt := 0; tt := 0; gg := 5 |}
                {| pos := 5; length := 6; trash := 0; ac := 0;
                   gt := 0; tt := 0; gg := 6 |})
      as (_ & _ & Hgg & _).
    + left. reflexivity.
    + lia.
    + apply (iterate_loop_head _ _ _ 5 (reset 0));
        [apply head_reset | reflexivity].
    + reflexivity.
    + reflexivity.
    + apply Hgg. reflexivity.
  - destruct (stop_conditions strandA TG11 0
                {| pos := 21; length := 21; trash := 0; ac := 0;
                   gt := 10; tt := 1; gg := 0 |}
                {| pos := 21; length := 22; trash := 0; ac := 0;
                   gt := 11; tt := 0; gg := 1 |})
      as (_ & _ & _ & Hgt).
    + left. reflexivity.
    + lia.
    + apply (iterate_loop_head _ _ _ 21 (reset 0));
        [apply head_reset | reflexivity].
    + reflexivity.
    + reflexivity.
    + apply Hgt. reflexivity.
Defined.

(** C6 on a window with three noise characters and on one with a single
    noise character. *)
Lemma noise_window_witness :
  attempt strandA noisy 0 =
    Ok {| pos := 1; length := 1; trash := 0; ac := 3;
          gt := 1; tt := 0; gg := 1 |} /\
  loop_body strandA (txt "GAGG")
    {| pos := 1; length := 1; trash := 0; ac := 0;
       gt := 0; tt := 0; gg := 1 |} =
    Ok (Next, {| pos := 2; length := 2; trash := 0; ac := 0;
                 gt := 0; tt := 0; gg := 1 |}).
Proof.
  split.
  - destruct (noise_window strandA noisy 0
                {| pos := 1; length := 1; trash := 0; ac := 0;
                   gt := 1; tt := 0; gg := 1 |} "A"%char)
      as (_ & _ & Hmany & _).
    + left. reflexivity.
    + lia.
    + apply (iterate_loop_head _ _ _ 1 (reset 0));
        [apply head_reset | reflexivity].
    + reflexivity.
    + left. reflexivity.
    + apply Hmany. reflexivity.
  - destruct (noise_window strandA (txt "GAGG") 0
                {| pos := 1; length := 1; trash := 0; ac := 0;
                   gt := 0; tt := 0; gg := 1 |} "A"%char)
      as (_ & _ & _ & Hfew).
    + left. reflexivity.
    + lia.
    + apply (iterate_loop_head _ _ _ 1 (reset 0));
        [apply head_reset | reflexivity].
    + reflexivity.
    + left. reflexivity.
    + apply Hfew. intros H. discriminate H.
Defined.

(** ** The output path *)

Lemma endswith_app (p suffix : text_t) : endswith (p ++ suffix) suffix = true.
Proof.
  unfold endswith. rewrite length_app.
  replace (List.length p + List.length suffix - List.length suffix)%nat
    with (List.length p) by lia.
  rewrite skipn_app, Nat.sub_diag, skipn_all. simpl.
  destruct (list_eq_dec ascii_dec suffix suffix); [|contradiction].
  rewrite andb_true_r. apply Nat.leb_le. lia.
Qed.

Lemma endswith_split (s suffix : text_t) :
  endswith s suffix = true -> exists p, s = p ++ suffix.
Proof.
  unfold endswith. intros H. apply andb_true_iff in H. destruct H as [_ H].
  destruct (list_eq_dec ascii_dec _ suffix) as [E|]; [|discriminate].
  exists (firstn (List.length s - List.length suffix) s).
  rewrite <- E at 2. symmetry. apply firstn_skipn.
Qed.

Lemma clamp_from_end (L i : Z) : - L <= i < 0 -> clamp L i = i + L.
Proof.
  intros H. unfold clamp.
  destruct (Z.ltb_spec i 0); [|lia].
  destruct (Z.ltb_spec (i + L) 0); [lia|].
  destruct (Z.ltb_spec L (i + L)); lia.
Qed.

Lemma strip_gz (p : text_t) : py_slice (p ++ txt ".gz") 0 (-3) = p.
Proof.
  assert (HL : len (p ++ txt ".gz") = len p + 3).
  { unfold len. rewrite length_app. simpl List.length. lia. }
  pose proof (len_nonneg p) as Hp.
  unfold py_slice. rewrite HL.
  rewrite (clamp_id _ 0), (clamp_from_end _ (-3)) by lia.
  replace (Z.to_nat (-3 + (len p + 3) - 0)) with (List.length p)
    by (unfold len; lia).
  change (Z.to_nat 0) with 0%nat.
  rewrite skipn_O, firstn_app, Nat.sub_diag, firstn_all. simpl.
  apply app_nil_r.
Qed.

(** X1.  The name of the result file: a final ".gz" of the input name is
    cut off, once, and "-results.tsv" is put after what remains; a name
    without that ending is kept whole. *)
Theorem output_path_shape (sequence_file : text_t) :
  (forall p, sequence_file = p ++ txt ".gz" ->
             output_path sequence_file = p ++ txt "-results.tsv") /\
  (endswith sequence_file (txt ".gz") = false ->
   output_path sequence_file = sequence_file ++ txt "-results.tsv").
Proof.
  split.
  - intros p ->. unfold output_path.
    rewrite endswith_app, strip_gz. reflexivity.
  - intros H. unfold output_path. rewrite H. reflexivity.
Qed.

(** X2.  The result file is never the input file, and its name always
    ends with "-results.tsv". *)
Theorem output_path_fresh (sequence_file : text_t) :
  output_path sequence_file <> sequence_file /\
  endswith (output_path sequence_file) (txt "-results.tsv") = true.
Proof.
  split; [|apply endswith_app].
  intros E. apply (f_equal (@List.length ascii)) in E. revert E.
  unfold output_path.
  destruct (endswith sequence_file (txt ".gz")) eqn:H.
  - apply endswith_split in H. destruct H as [p ->].
    rewrite strip_gz, !length_app. simpl. lia.
  - rewrite length_app. simpl. lia.
Qed.

(** ** The result file *)

Lemma split_on_clean (sep : ascii) (a : text_t) :
  ~ In sep a -> split_on sep a = [a].
Proof.
  induction a as [|c a IH]; simpl; intros H; [reflexivity|].
  destruct (Ascii.eqb_spec c sep) as [->|Hne]; [tauto|].
  rewrite IH by tauto. reflexivity.
Qed.

Lemma split_on_cut (sep : ascii) (a b : text_t) :
  ~ In sep a -> split_on sep (a ++ sep :: b) = a :: split_on sep b.
Proof.
  induction a as [|c a IH]; simpl; intros H.
  - rewrite Ascii.eqb_refl. reflexivity.
  - destruct (Ascii.eqb_spec c sep) as [->|Hne]; [tauto|].
    rewrite IH by tauto. reflexivity.
Qed.

Lemma uint_string_clean (d : Decimal.uint) (c : ascii) :
  In c (list_ascii_of_string (NilEmpty.string_of_uint d)) ->
  c <> TAB /\ c <> NL.
Proof.
  induction d; simpl; try tauto;
    (intros [<-|H]; [split; discriminate|auto]).
Qed.

(** A decimal numeral holds neither a tab nor a newline. *)
Lemma py_str_clean (n : Z) : ~ In TAB (py_str n) /\ ~ In NL (py_str n).
Proof.
  assert (H : forall c, In c (py_str n) -> c <> TAB /\ c <> NL).
  { intros c. unfold py_str, NilZero.string_of_int, NilZero.string_of_uint.
    destruct (Z.to_int n) as [d|d]; destruct d; simpl;
      try (intros [<-|[]]; split; discriminate);
      repeat (intros [<-|H]; [split; discriminate|revert H]);
      try apply uint_string_clean; try tauto. }
  split; intros Hin; apply H in Hin; destruct Hin; congruence.
Qed.

(** What a completed run of the script leaves behind. *)
Lemma main_ok (sequence_file text : text_t) (min_length : Z) (out : output) :
  main sequence_file text min_length = Ok out ->
  exists hits,
    telofinder text min_length = Ok hits /\
    out = {| outfile := output_path sequence_file;
             written := tsv hits;
             printed := message (Z.of_nat (List.length hits))
                                (output_path sequence_file) |}.
Proof.
  unfold main, telofinder. fold start.
  destruct (strand_pass strandA text min_length start) as [c1| |] eqn:EA;
    simpl; try discriminate.
  destruct (strand_pass strandB text min_length c1) as [c2| |] eqn:EB;
    simpl; try discriminate.
  intros [= <-]. exists (results c2). split; [reflexivity|].
  apply strand_pass_spec in EA; [|apply strandA_distinct].
  destruct EA as (hitsA & -> & _). simpl in EB.
  apply strand_pass_spec in EB; [|apply strandB_distinct].
  destruct EB as (hitsB & -> & _). simpl.
  rewrite length_app, Nat2Z.inj_add. reflexivity.
Qed.

Lemma row_fields_split (h : hit) :
  ~ In TAB (hit_context h) ->
  split_on TAB (py_join [TAB] (row_fields h)) = row_fields h.
Proof.
  intros Hc. unfold row_fields. simpl.
  rewrite !split_on_cut by apply py_str_clean.
  rewrite split_on_clean by exact Hc. reflexivity.
Qed.

Lemma row_fields_one_line (h : hit) :
  ~ In NL (hit_context h) -> ~ In NL (py_join [TAB] (row_fields h)).
Proof.
  intros Hc. unfold row_fields. simpl.
  pose proof (py_str_clean (hit_index h)) as H1.
  pose proof (py_str_clean (hit_length h)) as H2.
  pose proof (py_str_clean (hit_position h)) as H3.
  intros H.
  repeat (apply in_app_or in H; destruct H as [H|H]; [tauto|];
          destruct H as [H|H]; [discriminate H|]).
  tauto.
Qed.

Lemma rows_split (hits : list hit) :
  Forall (fun h => ~ In NL (hit_context h)) hits ->
  split_on NL (flat_map row_line hits) =
  map (fun h => py_join [TAB] (row_fields h)) hits ++ [[]].
Proof.
  induction 1 as [|h hits Hh _ IH]; simpl; [reflexivity|].
  unfold row_line at 1. rewrite <- app_assoc. simpl.
  rewrite split_on_cut by (apply row_fields_one_line, Hh).
  rewrite IH. reflexivity.
Qed.

(** X3.  The file of a completed run reads back as what was put in: cut
    at the newlines it is the header line, one line per row in the order
    of the rows, and an empty piece after the last newline; and each of
    these lines cut at the tabs is the four fields of its row. *)
Theorem tsv_round_trip (sequence_file text : text_t) (min_length : Z)
  (out : output) :
  main sequence_file text min_length = Ok out ->
  exists hits,
    telofinder text min_length = Ok hits /\
    split_on NL (written out) =
      (txt "Index" ++ [TAB] ++ txt "Telomere length" ++ [TAB] ++
       txt "Position" ++ [TAB] ++ txt "Context")
      :: map (fun h => py_join [TAB] (row_fields h)) hits ++ [[]] /\
    Forall (fun h => split_on TAB (py_join [TAB] (row_fields h)) =
                     row_fields h) hits.
Proof.
  intros Hmain. apply main_ok in Hmain. destruct Hmain as (hits & Hrun & ->).
  exists hits. split; [exact Hrun|].
  assert (Hclean : Forall (fun h => ~ In NL (hit_context h) /\
                                    ~ In TAB (hit_context h)) hits).
  { apply Forall_forall. intros h Hin.
    destruct (telofinder_emitted _ _ _ _ Hrun Hin) as (sd & Hsd & Hem).
    apply emitted_facts in Hem; [|apply strands_distinct, Hsd].
    destruct Hem as (_ & _ & _ & _ & _ & _ & ->).
    apply flat_map_shown_clean. }
  split.
  - simpl written. unfold tsv, header.
    change (txt "Index" ++ [TAB] ++ txt "Telomere length" ++ [TAB] ++
            txt "Position" ++ [TAB] ++ txt "Context" ++ [NL])
      with ((txt "Index" ++ [TAB] ++ txt "Telomere length" ++ [TAB] ++
             txt "Position" ++ [TAB] ++ txt "Context") ++ [NL]).
    rewrite <- app_assoc. simpl ([NL] ++ _).
    rewrite split_on_cut.
    + rewrite rows_split; [reflexivity|].
      eapply Forall_impl; [|exact Hclean]. simpl. tauto.
    + simpl. intros H. repeat destruct H as [H|H]; try discriminate H.
      exact H.
  - eapply Forall_impl; [|exact Hclean]. simpl.
    intros h [_ Ht]. apply row_fields_split, Ht.
Qed.

(** X4.  The number of telomeres the final message of a completed run
    states is the number of rows in the file it names, and that file is
    the one derived from the input name. *)
Theorem message_counts_rows (sequence_file text : text_t) (min_length : Z)
  (out : output) :
  main sequence_file text min_length = Ok out ->
  exists hits,
    telofinder text min_length = Ok hits /\
    written out = tsv hits /\
    outfile out = output_path sequence_file /\
    printed out =
      txt "Analysis complete. " ++ py_str (Z.of_nat (List.length hits)) ++
      txt " telomers found. Results written to: " ++ outfile out.
Proof.
  intros Hmain. apply main_ok in Hmain. destruct Hmain as (hits & Hrun & ->).
  exists hits. repeat split. exact Hrun.
Qed.

(** ** The characters an attempt counts *)

Section Counted.

Variables (sd : strand) (text : text_t).
Hypothesis sd_distinct : distinct sd.

Lemma classify_next_recognized (s s1 : counters) :
  classify sd text s = Ok (Next, s1) ->
  exists ch, py_index text (pos s) = Ok ch /\ recognized sd ch.
Proof.
  unfold classify, recognized.
  destruct (py_index text (pos s)) as [ch| |]; simpl; try discriminate.
  intros H. exists ch. split; [reflexivity|]. revert H.
  destruct (Ascii.eqb_spec ch (primary sd)); [auto|].
  destruct (Ascii.eqb_spec ch (secondary sd)); [auto|].
  destruct (Ascii.eqb_spec ch (noise1 sd)); [auto|].
  destruct (Ascii.eqb_spec ch (noise2 sd)); [auto|].
  simpl. discriminate.
Qed.

Lemma loop_body_next_recognized (s s' : counters) :
  loop_body sd text s = Ok (Next, s') ->
  exists ch, py_index text (pos s) = Ok ch /\ recognized sd ch.
Proof.
  unfold loop_body.
  destruct (classify sd text s) as [[[|] s1]| |] eqn:E; simpl;
    try discriminate.
  intros _. eapply classify_next_recognized, E.
Qed.

(** Every character between the start of an attempt and its cursor is one
    of the four characters of the pass. *)
Lemma loop_head_counted (p : Z) (s : counters) :
  loop_head sd text p s ->
  forall i, p <= i < pos s ->
            exists ch, py_index text i = Ok ch /\ recognized sd ch.
Proof.
  induction 1 as [|s s' H IH HL Hbody]; intros i Hi.
  - simpl in Hi. lia.
  - pose proof (loop_body_next_pos sd text _ _ Hbody) as Hpos.
    destruct (Z.eq_dec i (pos s)) as [->|Hne].
    + eapply loop_body_next_recognized, Hbody.
    + apply IH. lia.
Qed.

(** An attempt ends either at the loop test, past the end of the text, or
    at a [break] inside the text. *)
Lemma attempt_shape (p : Z) (r : counters) :
  attempt sd text p = Ok r ->
  exists s, loop_head sd text p s /\
            ((len text <= pos s /\ r = s) \/
             (pos s < len text /\ loop_body sd text s = Ok (Break, r))).
Proof.
  unfold attempt.
  assert (H : forall fuel s, loop_head sd text p s ->
                inner_loop fuel sd text s = Ok r ->
                exists s0, loop_head sd text p s0 /\
                  ((len text <= pos s0 /\ r = s0) \/
                   (pos s0 < len text /\
                    loop_body sd text s0 = Ok (Break, r)))).
  { induction fuel as [|fuel IH]; intros s Hhead; rewrite inner_loop_eq;
      destruct (Z.ltb_spec (pos s) (len text)) as [HL|HL]; try discriminate.
    1, 3: intros [= <-]; exists s; auto.
    destruct (loop_body sd text s) as [[[|] s']| |] eqn:E; simpl;
      try discriminate.
    - intros [= <-]. exists s. auto.
    - apply IH. eapply head_next; eauto. }
  apply H. constructor.
Qed.

(** With [trash] at 0, the [length] characters from the start of the
    attempt on are all among the four characters of the pass. *)
Lemma attempt_counted (p : Z) (r : counters) :
  0 <= p -> attempt sd text p = Ok r -> trash r = 0 ->
  forall i, p <= i < p + length r ->
            exists ch, py_index text i = Ok ch /\ recognized sd ch.
Proof.
  intros Hp Hr Htr i Hi.
  destruct (attempt_shape p r Hr) as (s & Hhead & [[HL ->]|[HL Hbody]]).
  - pose proof (loop_head_head_inv sd text sd_distinct p s Hp Hhead) as Hinv.
    destruct Hinv as (_ & Hlen & _).
    apply (loop_head_counted p s Hhead). lia.
  - pose proof (loop_head_head_inv sd text sd_distinct p s Hp Hhead) as Hinv.
    destruct (loop_body_inv sd text sd_distinct p s Hinv HL)
      as (f & s' & E & Hf).
    rewrite Hbody in E. injection E as <- <-.
    destruct Hf as (Hpos & _ & _ & Hlen & _ & Hun).
    destruct (Z.eq_dec i (pos s)) as [->|Hne].
    + destruct (py_index_in_range text (pos s)) as [ch Hch];
        [destruct Hinv; lia|].
      exists ch. split; [exact Hch|].
      assert (Hdec : recognized sd ch \/ ~ recognized sd ch).
      { unfold recognized.
        destruct (ascii_dec ch (primary sd)); [tauto|].
        destruct (ascii_dec ch (secondary sd)); [tauto|].
        destruct (ascii_dec ch (noise1 sd)); [tauto|].
        destruct (ascii_dec ch (noise2 sd)); tauto. }
      destruct Hdec as [Hrec|Hrec]; [exact Hrec|].
      rewrite <- Hpos in Hch. specialize (Hun ch Hch Hrec). lia.
    + apply (loop_head_counted p s Hhead). lia.
Qed.

(** An attempt that leaves the cursor at the end of the text has counted
    every character from its start on, with [trash] at 0. *)
Lemma attempt_to_end (p : Z) (r : counters) :
  0 <= p < len text -> attempt sd text p = Ok r -> pos r = len text ->
  trash r = 0 /\ length r = len text - p.
Proof.
  intros Hp Hr Hend.
  destruct (attempt_shape p r Hr) as (s & Hhead & [[HL ->]|[HL Hbody]]).
  - pose proof (loop_head_head_inv sd text sd_distinct p s
                  ltac:(lia) Hhead) as Hinv.
    destruct Hinv as (_ & Hlen & Htr & _). split; [exact Htr|lia].
  - pose proof (loop_head_head_inv sd text sd_distinct p s
                  ltac:(lia) Hhead) as Hinv.
    destruct (loop_body_inv sd text sd_distinct p s Hinv HL)
      as (f & s' & E & Hf).
    rewrite Hbody in E. injection E as <- <-. destruct Hf as [Hpos _]. lia.
Qed.

End Counted.

Lemma recognized_nucleotide (sd : strand) (ch : ascii) :
  sd = strandA \/ sd = strandB -> (recognized sd ch <-> nucleotide ch).
Proof.
  unfold recognized, nucleotide. intros [-> | ->]; simpl; tauto.
Qed.

(** X5.  Every row of a completed run lies inside the text, with at least
    two more characters of text after the characters it counts. *)
Theorem hit_margin (text : text_t) (min_length : Z) (hits : list hit)
  (h : hit) :
  telofinder text min_length = Ok hits -> In h hits ->
  0 <= hit_position h /\ 0 <= hit_length h /\
  hit_position h + hit_length h + 2 <= len text.
Proof.
  intros Hrun Hin.
  destruct (telofinder_emitted _ _ _ _ Hrun Hin) as (sd & Hsd & Hem).
  apply emitted_facts in Hem; [|apply strands_distinct, Hsd].
  destruct Hem as (Hp & _ & Hl & _ & _ & (after & Ha & _) & _).
  apply py_index_nonneg in Ha; lia.
Qed.

(** X6.  The characters a row of a completed run covers, from its position
    on for its length, are all among "A", "C", "G" and "T". *)
Theorem hit_letters (text : text_t) (min_length : Z) (hits : list hit)
  (h : hit) (i : Z) :
  telofinder text min_length = Ok hits -> In h hits ->
  hit_position h <= i < hit_position h + hit_length h ->
  exists ch, py_index text i = Ok ch /\ nucleotide ch.
Proof.
  intros Hrun Hin Hi.
  destruct (telofinder_emitted _ _ _ _ Hrun Hin) as (sd & Hsd & Hem).
  pose proof (strands_distinct sd Hsd) as Hd.
  apply emitted_facts in Hem; [|exact Hd].
  destruct Hem as (Hp & _ & _ & (s & Hs & Hl & Htr & _) & _).
  destruct (attempt_counted sd text Hd (hit_position h) s) with (i := i)
    as (ch & Hch & Hrec); try assumption; try lia.
  exists ch. split; [exact Hch|]. apply (recognized_nucleotide sd); assumption.
Qed.

(** ** When the script faults *)

(** The acceptance test raises exactly when its first four tests pass and
    the fifth subscript is past the end. *)
Lemma valid_telomere_fault (text : text_t) (min_length p : Z) (s : counters) :
  0 <= p < len text -> 0 <= length s ->
  valid_telomere text min_length p s <> OutOfFuel /\
  (valid_telomere text min_length p s = IndexError <->
   exists before,
     min_length < length s < 1000 /\ trash s = 0 /\
     py_index text (p - 1) = Ok before /\ before <> NL /\
     len text <= p + length s + 1).
Proof.
  intros Hp Hl. unfold valid_telomere.
  destruct (py_index_in_range text (p - 1)) as [c1 Hc1]; [lia|].
  rewrite Hc1. simpl.
  assert (Hafter : (exists c2, py_index text (p + length s + 1) = Ok c2 /\
                               p + length s + 1 < len text) \/
                   (py_index text (p + length s + 1) = IndexError /\
                    len text <= p + length s + 1)).
  { destruct (Z.lt_ge_cases (p + length s + 1) (len text)) as [H|H].
    - left. destruct (py_index_in_range text (p + length s + 1)) as [c2 Hc2];
        [lia|]. eauto.
    - right. split; [apply py_index_past_end|]; lia. }
  destruct (Z.gtb_spec (length s) min_length); simpl;
    [|split; [discriminate|split; [discriminate|intros (b & ?); lia]]].
  destruct (Z.ltb_spec (length s) 1000); simpl;
    [|split; [discriminate|split; [discriminate|intros (b & ?); lia]]].
  destruct (Z.eqb_spec (trash s) 0); simpl;
    [|split; [discriminate|split; [discriminate|intros (b & ?); lia]]].
  destruct (Ascii.eqb_spec c1 NL) as [->|Hne].
  { split; [discriminate|]. split; [discriminate|].
    intros (b & _ & _ & [= <-] & Hb & _). contradiction. }
  destruct Hafter as [(c2 & -> & Hin)|[-> Hout]]; simpl.
  - split; [discriminate|]. split; [discriminate|]. intros (b & ?). lia.
  - split; [discriminate|]. split; [intros _|reflexivity].
    exists c1. repeat split; try assumption; lia.
Qed.

Section Faults.

Variables (sd : strand) (text : text_t) (min_length : Z).
Hypothesis sd_distinct : distinct sd.



(** A pass none of whose attempts can be faulty does not raise. *)
Lemma scan_loop_no_fault (fuel : nat) :
  (forall q, 0 <= q < len text -> ~ faulty sd text min_length q) ->
  forall p c,
    0 <= p -> scan_loop fuel sd text min_length p c <> IndexError.
Proof.
  intros Hno. induction fuel as [|fuel IH]; intros p c Hp;
    rewrite scan_loop_eq;
    destruct (Z.ltb_spec p (len text)) as [HL|HL]; try discriminate.
  destruct (attempt_ok sd text sd_distinct p Hp) as (s & Hs & Hpost).
  rewrite Hs. simpl.
  assert (Hl : 0 <= length s) by (destruct Hpost as (? & _ & ? & _); lia).
  destruct (valid_telomere_fault text min_length p s (conj Hp HL) Hl)
    as [_ Hiff].
  destruct (valid_telomere text min_length p s) as [ok| |] eqn:Hok; simpl;
    try discriminate.
  - apply IH. destruct Hpost. lia.
  - exfalso. apply (Hno p (conj Hp HL)).
    destruct Hiff as [Hiff _]. destruct (Hiff eq_refl) as (b & H).
    exists s, b. tauto.
Qed.

(** A pass raises exactly when the last attempt it makes is faulty. *)
Lemma scan_loop_fault_last (fuel : nat) :
  forall p c,
    0 <= p ->
    (scan_loop fuel sd text min_length p c = IndexError <->
     exists l a, attempts_loop fuel sd text min_length p = l ++ [a] /\
                 faulty sd text min_length a).
Proof.
  induction fuel as [|fuel IH]; intros p c Hp;
    rewrite scan_loop_eq, attempts_loop_eq;
    destruct (Z.ltb_spec p (len text)) as [HL|HL];
    try (split; [discriminate|intros (l & a & E & _); destruct l;
                               discriminate E]).
  destruct (attempt_ok sd text sd_distinct p Hp) as (s & Hs & Hpost).
  rewrite Hs. simpl.
  assert (Hl : 0 <= length s) by (destruct Hpost as (? & _ & ? & _); lia).
  destruct (valid_telomere_fault text min_length p s (conj Hp HL) Hl)
    as [Hnf Hiff].
  destruct (valid_telomere text min_length p s) as [ok| |] eqn:Hok; simpl.
  - rewrite IH by (destruct Hpost; lia). split.
    + intros (l & a & E & Hf). exists (p :: l), a. rewrite E. auto.
    + intros (l & a & E & Hf). destruct l as [|x l]; simpl in E;
        injection E as <- E.
      * exfalso. destruct Hf as (s' & b & Hs' & H).
        rewrite Hs in Hs'. injection Hs' as <-.
        assert (E' : Ok ok = @IndexError bool) by (apply Hiff; eauto).
        discriminate E'.
      * exists l, a. auto.
  - split; [intros _|reflexivity]. exists [], p. split; [reflexivity|].
    destruct Hiff as [Hiff _]. destruct (Hiff eq_refl) as (b & H).
    exists s, b. tauto.
  - contradiction.
Qed.

End Faults.

Lemma strand_pass_outcome (sd : strand) (text : text_t) (min_length : Z)
  (c : collector) :
  distinct sd ->
  (exists c', strand_pass sd text min_length c = Ok c') \/
  strand_pass sd text min_length c = IndexError.
Proof.
  intros Hsd.
  destruct (strand_pass sd text min_length c) as [c'| |] eqn:E; eauto.
  exfalso. revert E. apply scan_loop_total; [exact Hsd|lia|unfold len; lia].
Qed.


Lemma py_index_last_two (body : text_t) (c1 c2 : ascii) :
  py_index (body ++ [c1; c2]) (len (body ++ [c1; c2]) - 2) = Ok c1 /\
  py_index (body ++ [c1; c2]) (len (body ++ [c1; c2]) - 1) = Ok c2.
Proof.
  assert (HL : len (body ++ [c1; c2]) = len body + 2).
  { unfold len. rewrite length_app. simpl List.length. lia. }
  pose proof (len_nonneg body) as Hb. rewrite HL.
  split; unfold py_index; rewrite HL.
  - destruct (Z.ltb_spec (len body + 2 - 2) 0); [lia|].
    destruct (Z.ltb_spec (len body + 2 - 2) 0); [lia|].
    destruct (Z.leb_spec (len body + 2) (len body + 2 - 2)); [lia|]. simpl.
    replace (Z.to_nat (len body + 2 - 2)) with (List.length body + 0)%nat
      by (unfold len; lia).
    rewrite nth_error_app2 by lia.
    replace (List.length body + 0 - List.length body)%nat with 0%nat by lia.
    reflexivity.
  - destruct (Z.ltb_spec (len body + 2 - 1) 0); [lia|].
    destruct (Z.ltb_spec (len body + 2 - 1) 0); [lia|].
    destruct (Z.leb_spec (len body + 2) (len body + 2 - 1)); [lia|]. simpl.
    replace (Z.to_nat (len body + 2 - 1)) with (List.length body + 1)%nat
      by (unfold len; lia).
    rewrite nth_error_app2 by lia.
    replace (List.length body + 1 - List.length body)%nat with 1%nat by lia.
    reflexivity.
Qed.

Lemma no_faulty_attempt (sd : strand) (body : text_t) (c1 c2 : ascii)
  (min_length q : Z) :
  sd = strandA \/ sd = strandB ->
  ~ nucleotide c1 -> ~ nucleotide c2 ->
  0 <= q < len (body ++ [c1; c2]) ->
  ~ faulty sd (body ++ [c1; c2]) min_length q.
Proof.
  intros Hsd H1 H2 Hq (s & b & Hs & _ & Htr & _ & _ & Hout).
  pose proof (strands_distinct sd Hsd) as Hd.
  set (text := body ++ [c1; c2]) in *.
  destruct (py_index_last_two body c1 c2) as [E1 E2]. fold text in E1, E2.
  rewrite <- (recognized_nucleotide sd) in H1, H2 by exact Hsd.
  destruct (attempt_ok sd text Hd q) as (s' & Hs' & Hpost); [lia|].
  rewrite Hs in Hs'. injection Hs' as <-.
  destruct Hpost as (Hge & Hend & Hlen & _ & Hun).
  assert (Hlast : pos s = len text - 2 \/ pos s = len text - 1 \/
                  (pos s = len text /\ length s = pos s - q)) by lia.
  destruct Hlast as [E|[E|[E El]]].
  - rewrite <- E in E1. specialize (Hun c1 E1 H1). lia.
  - rewrite <- E in E2. specialize (Hun c2 E2 H2). lia.
  - destruct (attempt_counted sd text Hd q s ltac:(lia) Hs Htr
                (len text - 1)) as (ch & Hch & Hrec); [lia|].
    rewrite E2 in Hch. injection Hch as <-. contradiction.
Qed.

(** X8.  When the last two characters of the text are both other than
    "A", "C", "G" and "T", the script does not fault: it ends with its
    list of rows. *)
Theorem two_closing_characters (body : text_t) (c1 c2 : ascii)
  (min_length : Z) :
  ~ nucleotide c1 -> ~ nucleotide c2 ->
  exists hits, telofinder (body ++ [c1; c2]) min_length = Ok hits.
Proof.
  intros H1 H2.
  assert (Hpass : forall sd c, sd = strandA \/ sd = strandB ->
            exists c', strand_pass sd (body ++ [c1; c2]) min_length c = Ok c').
  { intros sd c Hsd. pose proof (strands_distinct sd Hsd) as Hd.
    destruct (strand_pass_outcome sd (body ++ [c1; c2]) min_length c Hd)
      as [H|H]; [exact H|].
    exfalso. revert H. unfold strand_pass.
    apply scan_loop_no_fault; [exact Hd| |lia].
    intros q Hq. apply no_faulty_attempt; assumption. }
  unfold telofinder.
  destruct (Hpass strandA {| index := 0; results := [] |}) as (cA & ->);
    [auto|]. simpl.
  destruct (Hpass strandB cA) as (cB & ->); [auto|]. simpl. eauto.
Qed.

(** ** Texts too short and thresholds too high *)

(** A pass none of whose attempts is accepted leaves the collector as it
    was. *)
Lemma scan_loop_nothing (sd : strand) (text : text_t) (min_length : Z)
  (fuel : nat) :
  distinct sd ->
  (forall q s, 0 <= q < len text -> attempt sd text q = Ok s ->
               valid_telomere text min_length q s = Ok false) ->
  forall p c,
    0 <= p -> (Z.to_nat (len text - p) <= fuel)%nat ->
    scan_loop fuel sd text min_length p c = Ok c.
Proof.
  intros Hsd Hno. induction fuel as [|fuel IH]; intros p c Hp Hfuel;
    rewrite scan_loop_eq;
    destruct (Z.ltb_spec p (len text)) as [HL|HL]; try reflexivity; try lia.
  destruct (attempt_ok sd text Hsd p Hp) as (s & Hs & Hge & _).
  rewrite Hs. simpl. rewrite (Hno p s) by (auto; lia). simpl.
  apply IH; lia.
Qed.

(** X9.  When the text is no longer than [min_length], or [min_length] is
    999 or more, the script ends without a fault and without a row. *)
Theorem nothing_to_find (text : text_t) (min_length : Z) :
  len text <= min_length \/ 999 <= min_length ->
  telofinder text min_length = Ok [].
Proof.
  intros Hm.
  assert (Hpass : forall sd c, distinct sd ->
                               strand_pass sd text min_length c = Ok c).
  { intros sd c Hsd. unfold strand_pass.
    apply scan_loop_nothing; [exact Hsd| |lia|unfold len; lia].
    intros q s Hq Hs.
    destruct (attempt_ok sd text Hsd q) as (s' & Hs' & Hpost); [lia|].
    rewrite Hs in Hs'. injection Hs' as <-.
    destruct Hpost as (Hge & Hend & Hlen & _).
    unfold valid_telomere.
    destruct (Z.gtb_spec (length s) min_length); simpl; [|reflexivity].
    destruct (Z.ltb_spec (length s) 1000); simpl; [lia|reflexivity]. }
  unfold telofinder.
  rewrite (Hpass strandA) by apply strandA_distinct. simpl.
  rewrite (Hpass strandB) by apply strandB_distinct. reflexivity.
Qed.

(** ** The two strands mirror each other *)

Lemma complement_involutive (ch : ascii) : complement (complement ch) = ch.
Proof. destruct ch as [[] [] [] [] [] [] [] []]; reflexivity. Qed.

Lemma eqb_complement (a b : ascii) :
  Ascii.eqb (complement a) (complement b) = Ascii.eqb a b.
Proof.
  destruct (Ascii.eqb_spec a b) as [->|Hne].
  - apply Ascii.eqb_refl.
  - apply Ascii.eqb_neq. intros E. apply Hne.
    rewrite <- (complement_involutive a), <- (complement_involutive b).
    f_equal. exact E.
Qed.

Lemma len_map (f : ascii -> ascii) (text : text_t) :
  len (map f text) = len text.
Proof. unfold len. rewrite length_map. reflexivity. Qed.

Lemma py_index_map (f : ascii -> ascii) (text : text_t) (i : Z) :
  py_index (map f text) i = (ch <- py_index text i ;; Ok (f ch)).
Proof.
  unfold py_index. rewrite len_map.
  destruct (_ || _); [reflexivity|].
  rewrite nth_error_map. destruct (nth_error text _); reflexivity.
Qed.

Lemma count_occ_complement (l : text_t) (c : ascii) :
  count_occ ascii_dec (map complement l) (complement c) =
  count_occ ascii_dec l c.
Proof.
  induction l as [|x l IH]; simpl; [reflexivity|].
  destruct (ascii_dec (complement x) (complement c)) as [E|E];
    destruct (ascii_dec x c) as [E'|E']; try congruence.
  exfalso. apply E'.
  rewrite <- (complement_involutive x), <- (complement_involutive c).
  f_equal. exact E.
Qed.

Lemma py_count_complement (text : text_t) (c : ascii) (i j : Z) :
  py_count (map complement text) (complement c) i j = py_count text c i j.
Proof.
  unfold py_count, py_slice. rewrite len_map, skipn_map, firstn_map.
  rewrite count_occ_complement. reflexivity.
Qed.

Section Mirror.

Variables (sd : strand) (text : text_t) (min_length : Z).

Lemma classify_complement (s : counters) :
  classify (complement_strand sd) (map complement text) s =
  classify sd text s.
Proof.
  unfold classify. rewrite !py_index_map. simpl.
  rewrite !py_count_complement.
  destruct (py_index text (pos s)) as [ch| |]; simpl; try reflexivity.
  rewrite !eqb_complement.
  destruct (py_index text (pos s - 1)) as [prev| |]; simpl;
    rewrite ?eqb_complement; reflexivity.
Qed.

Lemma inner_loop_complement (fuel : nat) :
  forall s,
    inner_loop fuel (complement_strand sd) (map complement text) s =
    inner_loop fuel sd text s.
Proof.
  induction fuel as [|fuel IH]; intros s; simpl; rewrite len_map;
    [reflexivity|].
  unfold loop_body. rewrite classify_complement.
  destruct (pos s <? len text); [|reflexivity].
  destruct (classify sd text s) as [[[|] s1]| |]; simpl; try reflexivity.
  destruct (stop_checks s1) as [[|] s2]; simpl; [reflexivity|apply IH].
Qed.

Lemma attempt_complement (p : Z) :
  attempt (complement_strand sd) (map complement text) p = attempt sd text p.
Proof.
  unfold attempt. rewrite length_map. apply inner_loop_complement.
Qed.

Lemma valid_telomere_complement (p : Z) (s : counters) :
  valid_telomere (map complement text) min_length p s =
  valid_telomere text min_length p s.
Proof.
  unfold valid_telomere. rewrite !py_index_map.
  destruct (negb (length s >? min_length)); [reflexivity|].
  destruct (negb (length s <? 1000)); [reflexivity|].
  destruct (negb (trash s =? 0)); [reflexivity|].
  assert (HNL : forall c, Ascii.eqb (complement c) NL = Ascii.eqb c NL).
  { intros c. apply (eqb_complement c NL). }
  destruct (py_index text (p - 1)) as [c1| |]; simpl; try reflexivity.
  rewrite HNL.
  destruct (Ascii.eqb c1 NL); [reflexivity|].
  destruct (py_index text (p + length s + 1)) as [c2| |]; simpl;
    try reflexivity.
  rewrite HNL. reflexivity.
Qed.

(** A pass over the complemented text and the mirrored pass over the text
    end alike, whatever the collectors they start from: both complete, and
    then the rows they add have the same lengths and positions, or both
    raise. *)
Lemma scan_loop_mirror (fuel : nat) :
  forall p c1 c2,
    match scan_loop fuel (complement_strand sd) (map complement text)
            min_length p c1,
          scan_loop fuel sd text min_length p c2 with
    | Ok c1', Ok c2' =>
        exists n1 n2,
          results c1' = results c1 ++ n1 /\
          results c2' = results c2 ++ n2 /\
          map place n1 = map place n2
    | IndexError, IndexError => True
    | OutOfFuel, OutOfFuel => True
    | _, _ => False
    end.
Proof.
  induction fuel as [|fuel IH]; intros p c1 c2; simpl; rewrite len_map;
    (destruct (p <? len text);
     [|exists [], []; rewrite !app_nil_r; auto]);
    [exact I|].
  rewrite attempt_complement.
  destruct (attempt sd text p) as [s| |]; simpl; try exact I.
  rewrite valid_telomere_complement.
  destruct (valid_telomere text min_length p s) as [[|]| |]; simpl;
    try exact I.
  - specialize (IH (pos s + 1) (record_hit (map complement text) p s c1)
                   (record_hit text p s c2)).
    destruct (scan_loop fuel (complement_strand sd) _ _ _ _) as [c1'| |];
      destruct (scan_loop fuel sd text _ _ _) as [c2'| |]; try exact IH.
    destruct IH as (n1 & n2 & R1 & R2 & Hp).
    simpl in R1, R2. rewrite <- app_assoc in R1, R2.
    do 2 eexists. split; [exact R1|]. split; [exact R2|].
    simpl. f_equal. exact Hp.
  - apply IH.
Qed.

End Mirror.

Lemma complement_text (text : text_t) :
  map complement (map complement text) = text.
Proof.
  rewrite map_map. rewrite <- (map_id text) at 2.
  apply map_ext. apply complement_involutive.
Qed.

(** The script over the complemented text, against the script over the
    text. *)
Lemma telofinder_mirror (text : text_t) (min_length : Z) :
  match telofinder text min_length with
  | Ok hits =>
      exists hitsA hitsB hitsA' hitsB',
        hits = hitsA ++ hitsB /\
        strand_pass strandA text min_length start =
          Ok {| index := Z.of_nat (List.length hitsA); results := hitsA |} /\
        telofinder (map complement text) min_length = Ok (hitsA' ++ hitsB') /\
        strand_pass strandA (map complement text) min_length start =
          Ok {| index := Z.of_nat (List.length hitsA');
                results := hitsA' |} /\
        map place hitsA' = map place hitsB /\
        map place hitsB' = map place hitsA
  | IndexError => telofinder (map complement text) min_length = IndexError
  | OutOfFuel => True
  end.
Proof.
  pose proof (fun c1 c2 =>
    scan_loop_mirror strandB text min_length (List.length text) 0 c1 c2)
    as MB.
  pose proof (fun c1 c2 =>
    scan_loop_mirror strandA text min_length (List.length text) 0 c1 c2)
    as MA.
  change (complement_strand strandB) with strandA in MB.
  change (complement_strand strandA) with strandB in MA.
  unfold telofinder, strand_pass in *. rewrite !length_map. fold start.
  destruct (scan_loop _ strandA text min_length 0 start) as [cA| |] eqn:EA;
    simpl; try exact I.
  - destruct (scan_loop _ strandB text min_length 0 cA) as [cB| |] eqn:EB;
      simpl; try exact I.
    + specialize (MB start cA). rewrite EB in MB.
      destruct (scan_loop _ strandA (map complement text) min_length 0 start)
        as [cA'| |] eqn:EA'; try contradiction.
      destruct MB as (n1 & n2 & R1 & R2 & HpB). simpl in R1.
      specialize (MA cA' start). rewrite EA in MA.
      destruct (scan_loop _ strandB (map complement text) min_length 0 cA')
        as [cB'| |] eqn:EB'; try contradiction.
      destruct MA as (n1' & n2' & R1' & R2' & HpA). simpl in R2'.
      simpl.
      exists n2', n2, n1, n1'.
      assert (HA : strand_pass strandA text min_length start = Ok cA)
        by exact EA.
      assert (HA' : strand_pass strandA (map complement text) min_length
                      start = Ok cA').
      { unfold strand_pass. rewrite length_map. exact EA'. }
      apply strand_pass_spec in HA; [|apply strandA_distinct].
      apply strand_pass_spec in HA'; [|apply strandA_distinct].
      destruct HA as (newA & EcA & _). destruct HA' as (newA' & EcA' & _).
      rewrite EcA in R2, R2'. rewrite EcA' in R1, R1'. simpl in *.
      subst newA newA'.
      repeat split; try congruence.
      rewrite EB'. simpl. congruence.
    + specialize (MB start cA). rewrite EB in MB.
      destruct (scan_loop _ strandA (map complement text) min_length 0 start)
        as [cA'| |]; try contradiction. reflexivity.
  - destruct (strand_pass_outcome strandA (map complement text) min_length
                start strandA_distinct) as [(cA' & E)|E];
      unfold strand_pass in E; rewrite length_map in E; rewrite E; simpl;
      [|reflexivity].
    specialize (MA cA' start). rewrite EA in MA.
    destruct (scan_loop _ strandB (map complement text) min_length 0 cA')
      as [cB'| |]; try contradiction. reflexivity.
Qed.

(** X10.  Replacing every base of the text by its complement ("G" with
    "C", "A" with "T" and back) exchanges what the two passes of the script
    find.  The script raises on the complemented text exactly when it
    raises on the text; and when it completes on the text it completes on
    the complemented text, where the rows of the strand-A pass have the
    lengths and positions of the rows of the strand-B pass on the text, and
    the rows of the strand-B pass those of the strand-A pass on the
    text. *)
Theorem complement_symmetry (text : text_t) (min_length : Z) :
  (telofinder (map complement text) min_length = IndexError <->
   telofinder text min_length = IndexError) /\
  (forall hits,
     telofinder text min_length = Ok hits ->
     exists hitsA hitsB hitsA' hitsB',
       hits = hitsA ++ hitsB /\
       strand_pass strandA text min_length start =
         Ok {| index := Z.of_nat (List.length hitsA); results := hitsA |} /\
       telofinder (map complement text) min_length = Ok (hitsA' ++ hitsB') /\
       strand_pass strandA (map complement text) min_length start =
         Ok {| index := Z.of_nat (List.length hitsA');
               results := hitsA' |} /\
       map place hitsA' = map place hitsB /\
       map place hitsB' = map place hitsA).
Proof.
  split; [split|].
  - intros H. pose proof (telofinder_mirror (map complement text) min_length)
      as M.
    rewrite H, complement_text in M. exact M.
  - intros H. pose proof (telofinder_mirror text min_length) as M.
    rewrite H in M. exact M.
  - intros hits H. pose proof (telofinder_mirror text min_length) as M.
    rewrite H in M. exact M.
Qed.

(** ** Raising the threshold *)

Lemma valid_telomere_raise (text : text_t) (m m' p : Z) (s : counters)
  (b : bool) :
  m <= m' -> valid_telomere text m p s = Ok b ->
  valid_telomere text m' p s = Ok (b && (length s >? m')).
Proof.
  intros Hm. unfold valid_telomere.
  destruct (Z.gtb_spec (length s) m'); simpl.
  - destruct (Z.gtb_spec (length s) m); simpl; [|lia].
    rewrite andb_true_r. auto.
  - rewrite andb_false_r.
    destruct (Z.gtb_spec (length s) m); simpl; [|auto].
    repeat match goal with
    | |- (if ?c then _ else _) = _ -> _ => destruct c; simpl; auto
    | |- (_ <- ?c ;; _) = _ -> _ => destruct c; simpl; try discriminate
    end.
Qed.

Lemma scan_loop_raise (sd : strand) (text : text_t) (m m' : Z) (fuel : nat) :
  m <= m' ->
  forall p c1 c1' c2,
    scan_loop fuel sd text m p c1 = Ok c1' ->
    exists c2' new new',
      scan_loop fuel sd text m' p c2 = Ok c2' /\
      results c1' = results c1 ++ new /\
      results c2' = results c2 ++ new' /\
      map content new' =
        filter (fun x => fst (fst x) >? m') (map content new).
Proof.
  intros Hm. induction fuel as [|fuel IH]; intros p c1 c1' c2;
    rewrite !scan_loop_eq; destruct (p <? len text); try discriminate.
  1, 3: intros [= <-]; exists c2, [], []; rewrite !app_nil_r; auto.
  destruct (attempt sd text p) as [s| |]; simpl; try discriminate.
  destruct (valid_telomere text m p s) as [b| |] eqn:Hb; simpl;
    try discriminate.
  rewrite (valid_telomere_raise text m m' p s b Hm Hb). simpl.
  intros H.
  destruct b; simpl.
  - destruct (length s >? m') eqn:Hl.
    + destruct (IH _ _ _ (record_hit text p s c2) H)
        as (c2' & new & new' & E2 & R1 & R2 & Hf).
      simpl in R1, R2. rewrite <- app_assoc in R1, R2.
      exists c2'. do 2 eexists.
      split; [exact E2|]. split; [exact R1|]. split; [exact R2|].
      simpl. rewrite Hl. f_equal. exact Hf.
    + destruct (IH _ _ _ c2 H) as (c2' & new & new' & E2 & R1 & R2 & Hf).
      simpl in R1. rewrite <- app_assoc in R1.
      exists c2'. do 2 eexists.
      split; [exact E2|]. split; [exact R1|]. split; [exact R2|].
      simpl. rewrite Hl. exact Hf.
  - destruct (IH _ _ _ c2 H) as (c2' & new & new' & E2 & R1 & R2 & Hf).
    exists c2', new, new'. auto.
Qed.

(** X11.  Raising [min_length] only takes rows away: when the script
    completes with one threshold it completes with any higher one, and its
    rows then are, in the same order and with the same length, position
    and context, the rows of the first run whose length is above the
    higher threshold. *)
Theorem threshold_filters (text : text_t) (m m' : Z) (hits : list hit) :
  m <= m' -> telofinder text m = Ok hits ->
  exists hits',
    telofinder text m' = Ok hits' /\
    map content hits' =
      filter (fun x => fst (fst x) >? m') (map content hits).
Proof.
  intros Hm. unfold telofinder, strand_pass.
  destruct (scan_loop _ strandA text m 0 _) as [c1| |] eqn:EA; simpl;
    try discriminate.
  destruct (scan_loop _ strandB text m 0 c1) as [c2| |] eqn:EB; simpl;
    try discriminate.
  intros [= <-].
  destruct (scan_loop_raise strandA text m m' _ Hm _ _ _
              {| index := 0; results := [] |} EA)
    as (c1' & newA & newA' & -> & RA & RA' & HfA). simpl.
  destruct (scan_loop_raise strandB text m m' _ Hm _ _ _ c1' EB)
    as (c2' & newB & newB' & -> & RB & RB' & HfB). simpl.
  eexists. split; [reflexivity|].
  simpl in RA, RA'. rewrite RB, RB', RA, RA', !map_app, filter_app.
  congruence.
Qed.

(** ** Further instances *)

(** X3 on a text with two rows on each strand. *)
Lemma tsv_round_trip_witness :
  main (txt "reads.fastq.gz") two_strands 0 = Ok two_strands_output /\
  exists hits,
    telofinder two_strands 0 = Ok hits /\
    split_on NL (written two_strands_output) =
      (txt "Index" ++ [TAB] ++ txt "Telomere length" ++ [TAB] ++
       txt "Position" ++ [TAB] ++ txt "Context")
      :: map (fun h => py_join [TAB] (row_fields h)) hits ++ [[]] /\
    Forall (fun h => split_on TAB (py_join [TAB] (row_fields h)) =
                     row_fields h) hits.
Proof.
  split; [reflexivity|].
  exact (tsv_round_trip (txt "reads.fastq.gz") two_strands 0
           two_strands_output eq_refl).
Defined.

(** X4 on the same run. *)
Lemma message_counts_rows_witness :
  main (txt "reads.fastq.gz") two_strands 0 = Ok two_strands_output /\
  exists hits,
    telofinder two_strands 0 = Ok hits /\
    written two_strands_output = tsv hits /\
    outfile two_strands_output = output_path (txt "reads.fastq.gz") /\
    printed two_strands_output =
      txt "Analysis complete. " ++ py_str (Z.of_nat (List.length hits)) ++
      txt " telomers found. Results written to: " ++
      outfile two_strands_output.
Proof.
  split; [reflexivity|].
  exact (message_counts_rows (txt "reads.fastq.gz") two_strands 0
           two_strands_output eq_refl).
Defined.

(** X5 on a tab, eight "G" and a newline: the row at 1 of length 6. *)
Lemma hit_margin_witness :
  telofinder (tab_run ++ [NL]) 0 = Ok [tab_hit] /\
  0 <= hit_position tab_hit /\ 0 <= hit_length tab_hit /\
  hit_position tab_hit + hit_length tab_hit + 2 <= len (tab_run ++ [NL]).
Proof.
  split; [reflexivity|].
  apply (hit_margin (tab_run ++ [NL]) 0 [tab_hit] tab_hit eq_refl).
  left. reflexivity.
Defined.

(** X6 on the same row, at offset 3. *)
Lemma hit_letters_witness :
  telofinder (tab_run ++ [NL]) 0 = Ok [tab_hit] /\
  exists ch, py_index (tab_run ++ [NL]) 3 = Ok ch /\ nucleotide ch.
Proof.
  split; [reflexivity|].
  apply (hit_letters (tab_run ++ [NL]) 0 [tab_hit] tab_hit 3 eq_refl).
  - left. reflexivity.
  - simpl. lia.
Defined.

(** X8 on a text that ends with a carriage return and a newline. *)
Lemma two_closing_characters_witness :
  exists hits, telofinder (tab_run ++ [CR; NL]) 0 = Ok hits.
Proof.
  apply (two_closing_characters tab_run CR NL 0);
    intros [H|[H|[H|H]]]; discriminate H.
Defined.

(** X9 on 200 times "G" with [min_length = 200]. *)
Lemma nothing_to_find_witness : telofinder G200 200 = Ok [].
Proof.
  apply (nothing_to_find G200 200). left. vm_compute. intros H. discriminate H.
Defined.

(** X11 on the text with two rows on each strand, from [min_length = 0]
    to [min_length = 6]. *)
Lemma threshold_filters_witness :
  telofinder two_strands 0 = Ok two_strands_hits /\
  exists hits',
    telofinder two_strands 6 = Ok hits' /\
    map content hits' =
      filter (fun x => fst (fst x) >? 6) (map content two_strands_hits).
Proof.
  split; [reflexivity|].
  apply (threshold_filters two_strands 0 6 two_strands_hits);
    [lia|reflexivity].
Defined.

(** ** The neighbours of a row, the reach of the attempts, the number of
    rows *)

(** X12.  Around every row of a completed run: the character the
    subscript [position - 1] reads (the one before the row, or the last
    one of the text for a row at 0) is no newline, and the character at
    offset [position + length + 1] exists and is no newline. *)
Theorem hit_neighbours (text : text_t) (min_length : Z) (hits : list hit)
  (h : hit) :
  telofinder text min_length = Ok hits -> In h hits ->
  (exists before,
     py_index text (hit_position h - 1) = Ok before /\ before <> NL /\
     (0 < hit_position h ->
      nth_error text (Z.to_nat (hit_position h - 1)) = Some before)) /\
  (exists after,
     nth_error text (Z.to_nat (hit_position h + hit_length h + 1)) =
       Some after /\ after <> NL).
Proof.
  intros Hrun Hin.
  destruct (telofinder_emitted _ _ _ _ Hrun Hin) as (sd & Hsd & Hem).
  apply emitted_facts in Hem; [|apply strands_distinct, Hsd].
  destruct Hem as (Hp & _ & Hl & _ & (b & Hb & Hbn) & (a & Ha & Han) & _).
  split.
  - exists b. repeat split; try assumption.
    intros Hpos. apply py_index_nonneg in Hb; [tauto|lia].
  - exists a. split; [|exact Han].
    apply py_index_nonneg in Ha; [tauto|lia].
Qed.

(** X13.  In a run that completes, each pass reaches every offset of the
    text: every offset lies between the start of one of the attempts the
    pass makes and the offset at which that attempt leaves the cursor. *)
Theorem attempts_cover (sd : strand) (text : text_t) (min_length : Z)
  (hits : list hit) (i : Z) :
  telofinder text min_length = Ok hits ->
  sd = strandA \/ sd = strandB -> 0 <= i < len text ->
  exists q s, In q (pass_attempts sd text min_length) /\
              attempt sd text q = Ok s /\ q <= i <= pos s.
Proof.
  intros Hrun Hsd Hi.
  assert (Hpass : exists c c', strand_pass sd text min_length c = Ok c').
  { revert Hrun. unfold telofinder.
    destruct (strand_pass strandA text min_length _) as [c1| |] eqn:EA;
      simpl; try discriminate.
    destruct (strand_pass strandB text min_length c1) as [c2| |] eqn:EB;
      simpl; try discriminate.
    intros _. destruct Hsd as [-> | ->]; eauto. }
  destruct Hpass as (c & c' & Hpass). unfold strand_pass in Hpass.
  unfold pass_attempts.
  eapply scan_loop_cover;
    [apply strands_distinct, Hsd| |exact Hpass|]; lia.
Qed.

Lemma rows_fit (m hi : Z) (l : list hit) :
  0 <= m -> StronglySorted precedes l ->
  forall lo,
    lo <= hi ->
    Forall (fun h => lo <= hit_position h /\ m < hit_length h /\
                     hit_position h + hit_length h <= hi) l ->
    lo + Z.of_nat (List.length l) * (m + 1) <= hi.
Proof.
  intros Hm Hs. induction Hs as [|h l Hs IH Hf]; intros lo Hlo Hall.
  - simpl. lia.
  - apply Forall_cons_iff in Hall. destruct Hall as [(H1 & H2 & H3) Hall].
    specialize (IH (hit_position h + hit_length h) H3).
    assert (Hl : Forall (fun h0 => hit_position h + hit_length h <=
                                   hit_position h0 /\ m < hit_length h0 /\
                                   hit_position h0 + hit_length h0 <= hi) l).
    { rewrite Forall_forall in *. intros x Hx.
      destruct (Hf x Hx) as [_ Hp]. destruct (Hall x Hx) as (_ & ? & ?).
      auto. }
    specialize (IH Hl). simpl List.length. lia.
Qed.

(** X14.  With [min_length] not negative, a completed run has at most
    [2 * L / (min_length + 1)] rows for a text of [L] characters: the rows
    of one pass do not overlap and each is longer than [min_length]. *)
Theorem row_count_bound (text : text_t) (min_length : Z) (hits : list hit) :
  0 <= min_length -> telofinder text min_length = Ok hits ->
  Z.of_nat (List.length hits) * (min_length + 1) <= 2 * len text.
Proof.
  intros Hm Hrun. apply telofinder_rows in Hrun.
  destruct Hrun as (hitsA & hitsB & -> & _ & _ & _ & HA & HB & HsA & HsB).
  assert (Hfit : forall sd l, sd = strandA \/ sd = strandB ->
            Forall (emitted sd text min_length) l ->
            StronglySorted precedes l ->
            0 + Z.of_nat (List.length l) * (min_length + 1) <= len text).
  { intros sd l Hsd Hem Hs.
    apply rows_fit; [exact Hm|exact Hs|apply len_nonneg|].
    eapply Forall_impl; [|exact Hem]. intros h Hh.
    apply emitted_facts in Hh; [|apply strands_distinct, Hsd].
    destruct Hh as (Hp & Hlen & _ & _ & _ & (a & Ha & _) & _).
    apply py_index_nonneg in Ha; lia. }
  pose proof (Hfit strandA hitsA (or_introl eq_refl) HA HsA).
  pose proof (Hfit strandB hitsB (or_intror eq_refl) HB HsB).
  rewrite length_app, Nat2Z.inj_add. lia.
Qed.

(** X12 on a tab, eight "G" and a newline. *)
Lemma hit_neighbours_witness :
  telofinder (tab_run ++ [NL]) 0 = Ok [tab_hit] /\
  (exists before,
     py_index (tab_run ++ [NL]) (hit_position tab_hit - 1) = Ok before /\
     before <> NL /\
     (0 < hit_position tab_hit ->
      nth_error (tab_run ++ [NL]) (Z.to_nat (hit_position tab_hit - 1)) =
        Some before)) /\
  (exists after,
     nth_error (tab_run ++ [NL])
       (Z.to_nat (hit_position tab_hit + hit_length tab_hit + 1)) =
       Some after /\ after <> NL).
Proof.
  split; [reflexivity|].
  apply (hit_neighbours (tab_run ++ [NL]) 0 [tab_hit] tab_hit eq_refl).
  left. reflexivity.
Defined.

(** X13 on 14 times "G" and an "X", with [min_length = 0], at offset 9. *)
Lemma attempts_cover_witness :
  pass_attempts strandA G14X 0 = [0; 6; 12] /\
  exists q s, In q (pass_attempts strandA G14X 0) /\
              attempt strandA G14X q = Ok s /\ q <= 9 <= pos s.
Proof.
  split; [reflexivity|].
  refine (attempts_cover strandA G14X 0 _ 9 _ (or_introl eq_refl) _).
  - vm_compute. reflexivity.
  - vm_compute. split; [intros H; discriminate H|reflexivity].
Defined.

(** X10 on the text with two rows on each strand. *)
Lemma complement_symmetry_witness :
  telofinder two_strands 0 = Ok two_strands_hits /\
  exists hitsA hitsB hitsA' hitsB',
    two_strands_hits = hitsA ++ hitsB /\
    strand_pass strandA two_strands 0 start =
      Ok {| index := Z.of_nat (List.length hitsA); results := hitsA |} /\
    telofinder (map complement two_strands) 0 = Ok (hitsA' ++ hitsB') /\
    strand_pass strandA (map complement two_strands) 0 start =
      Ok {| index := Z.of_nat (List.length hitsA');
            results := hitsA' |} /\
    map place hitsA' = map place hitsB /\
    map place hitsB' = map place hitsA.
Proof.
  split; [reflexivity|].
  exact (proj2 (complement_symmetry two_strands 0) two_strands_hits eq_refl).
Defined.

(** X14 on the text with two rows on each strand. *)
Lemma row_count_bound_witness :
  telofinder two_strands 0 = Ok two_strands_hits /\
  Z.of_nat (List.length two_strands_hits) * (0 + 1) <= 2 * len two_strands.
Proof.
  split; [reflexivity|].
  apply (row_count_bound two_strands 0 two_strands_hits);
    [lia|reflexivity].
Defined.

(** X1 on a name with and a name without the ending ".gz". *)
Lemma output_path_shape_witness :
  output_path (txt "reads.fastq.gz") = txt "reads.fastq-results.tsv" /\
  output_path (txt "reads.fastq") = txt "reads.fastq-results.tsv".
Proof.
  split.
  - exact (proj1 (output_path_shape (txt "reads.fastq.gz"))
             (txt "reads.fastq") eq_refl).
  - exact (proj2 (output_path_shape (txt "reads.fastq")) eq_refl).
Defined.

(** ** The attempt at which the script faults *)

(** X15.  The script ends with [IndexError] exactly when the last attempt
    the strand-A pass makes, or, the strand-A pass having completed, the
    last attempt the strand-B pass makes, passes the first four tests of
    line 124 / 187 while [position + length + 1] is not below the length
    of the text. *)
Theorem fault_at_last_attempt (text : text_t) (min_length : Z) :
  telofinder text min_length = IndexError <->
  (exists l a,
     pass_attempts strandA text min_length = l ++ [a] /\
     faulty strandA text min_length a) \/
  (exists c1 l a,
     strand_pass strandA text min_length start = Ok c1 /\
     pass_attempts strandB text min_length = l ++ [a] /\
     faulty strandB text min_length a).
Proof.
  pose proof (fun c => scan_loop_fault_last strandA text min_length
                strandA_distinct (List.length text) 0 c (Z.le_refl 0)) as HA.
  pose proof (fun c => scan_loop_fault_last strandB text min_length
                strandB_distinct (List.length text) 0 c (Z.le_refl 0)) as HB.
  fold (pass_attempts strandA text min_length) in HA.
  fold (pass_attempts strandB text min_length) in HB.
  unfold telofinder, strand_pass in *. fold start.
  destruct (scan_loop _ strandA text min_length 0 start) as [c1| |] eqn:EA;
    simpl.
  - destruct (scan_loop _ strandB text min_length 0 c1) as [c2| |] eqn:EB;
      simpl.
    + split; [discriminate|]. intros [H|(c & l & a & _ & H)].
      * pose proof (proj2 (HA start) H) as X. congruence.
      * pose proof (proj2 (HB c1) (ex_intro _ l (ex_intro _ a H))) as X.
        congruence.
    + split; [intros _|reflexivity]. right. apply HB in EB.
      destruct EB as (l & a & H). exists c1, l, a. tauto.
    + split; [discriminate|]. intros [H|(c & l & a & _ & H)].
      * pose proof (proj2 (HA start) H) as X. congruence.
      * pose proof (proj2 (HB c1) (ex_intro _ l (ex_intro _ a H))) as X.
        congruence.
  - split; [intros _|reflexivity]. left. apply HA in EA. exact EA.
  - split; [discriminate|]. intros [H|(c & _ & _ & E & _)].
    + pose proof (proj2 (HA start) H) as X. congruence.
    + discriminate E.
Qed.
